(** * Message dispatch orchestration of the common hosted email service

    A shallow embedding of [app/src/services/queueSvc.js]: the class
    [QueueService] with its operations [enqueue], [updateContent],
    [updateStatus], [sendMessage] and [removeJob], and the three error
    classes it throws.

    The orchestrator is written as a program over its three collaborators
    (Data Store, Job Queue, Mail Transport).  Programs are finite trees of
    collaborator calls; an interpreter runs them against a world holding the
    store, the queue, the in-memory Job objects, the log and the record of
    calls made. *)

From stdpp Require Import base gmap strings list pretty.

Set Default Proof Using "Type".

(** ** JavaScript values

    Identifiers, clients and option values are JavaScript values.  The code
    tests them for truthiness ([a && b]) and compares them with [!==].
    Numbers are integers here, so [NaN] (the one value not equal to itself)
    is not represented. *)

Inductive value : Type :=
| VUndefined
| VNull
| VBool (b : bool)
| VNum (n : Z)
| VStr (s : string).

Global Instance value_eq_dec : EqDecision value.
Proof. solve_decision. Defined.

Definition value_code (v : value) : unit + unit + bool + Z + string :=
  match v with
  | VUndefined => inl (inl (inl (inl tt)))
  | VNull => inl (inl (inl (inr tt)))
  | VBool b => inl (inl (inr b))
  | VNum n => inl (inr n)
  | VStr s => inr s
  end.

Definition value_decode (c : unit + unit + bool + Z + string) : value :=
  match c with
  | inl (inl (inl (inl _))) => VUndefined
  | inl (inl (inl (inr _))) => VNull
  | inl (inl (inr b)) => VBool b
  | inl (inr n) => VNum n
  | inr s => VStr s
  end.

Global Instance value_countable : Countable value.
Proof.
  apply (inj_countable' value_code value_decode).
  by intros [].
Defined.

(** [!!v]: the falsy values are undefined, null, false, 0 and the empty
    string. *)
Definition truthy (v : value) : bool :=
  match v with
  | VUndefined | VNull => false
  | VBool b => b
  | VNum n => negb (n =? 0)%Z
  | VStr s => negb (String.eqb s "")
  end.

(** [a !== b] *)
Definition strict_ne (a b : value) : bool := negb (bool_decide (a = b)).

(** Conversion inside a template literal, [`${v}`]. *)
Definition to_string (v : value) : string :=
  match v with
  | VUndefined => "undefined"
  | VNull => "null"
  | VBool true => "true"
  | VBool false => "false"
  | VNum n => pretty n
  | VStr s => s
  end.

(** ** Errors

    The three classes declared at the top of the module, each extending
    [Error], and [Error] itself for whatever a collaborator rejects with. *)

Inductive error : Type :=
| ClientMismatchError (message : string)
| DataIntegrityError (message : string)
| UncancellableError (message : string)
| Error (message : string).

Global Instance error_eq_dec : EqDecision error.
Proof. solve_decision. Defined.

(** [e.message] *)
Definition message_of (e : error) : string :=
  match e with
  | ClientMismatchError m | DataIntegrityError m
  | UncancellableError m | Error m => m
  end.

(** An error of one of the three declared classes. *)
Definition typed (e : error) : bool :=
  match e with
  | Error _ => false
  | _ => true
  end.

(** A settled promise: fulfilled with a value, or rejected. *)
Inductive outcome (A : Type) : Type :=
| Ok (a : A)
| Err (e : error).
Arguments Ok {A} a.
Arguments Err {A} e.

Definition fulfilled {A} (r : outcome A) : bool :=
  match r with Ok _ => true | Err _ => false end.

(** ** Data model *)

(** Modelled from the spec: [components/state.js], which exports
    [queueState], is missing from the sources; section 3 of the specification
    lists the statuses a Message can have. *)
Inductive queueState : Type :=
| ENQUEUED
| PROCESSING
| COMPLETED
| FAILED
| REMOVED.

Global Instance queueState_eq_dec : EqDecision queueState.
Proof. solve_decision. Defined.

(** The payload of a Job, [{ client, messageId }].  A field that is absent
    reads as [VUndefined]. *)
Record jobdata : Type := JobData {
  data_client : value;
  data_messageId : value
}.

Global Instance jobdata_eq_dec : EqDecision jobdata.
Proof. solve_decision. Defined.

(** An in-memory Job object: [job.id] and [job.data] ([None] is [null]). *)
Record jobobj : Type := JobObj {
  job_id : value;
  job_data : option jobdata
}.

(** Job objects are shared and mutated ([job.update] clears [job.data]), so
    the program handles references to them. *)
Abbreviation jobref := nat (only parsing).

(** The envelope is opaque to the orchestrator. *)
Abbreviation envelope := string (only parsing).

(** What the Mail Transport answers, [{ messageId, response }]. *)
Record smtpresult : Type := SmtpResult {
  smtp_messageId : value;
  smtp_response : value
}.

(** [{ smtpMsgId, response }] *)
Record sendresult : Type := SendResult {
  smtpMsgId : value;
  response : value
}.

Global Instance sendresult_eq_dec : EqDecision sendresult.
Proof. solve_decision. Defined.

(** A Message record of the Data Store. *)
Record message : Type := Message {
  status : queueState;
  statusDescription : value;
  email : option envelope;
  sendResult : option sendresult
}.

Global Instance message_eq_dec : EqDecision message.
Proof. solve_decision. Defined.

(** A Job as the Queue keeps it: payload, Queue-native state and the options
    it was added with. *)
Record qentry : Type := QEntry {
  q_payload : option jobdata;
  q_state : string;
  q_opts : gmap string value
}.

(** ** Collaborator calls

    Every method of the three collaborators that the orchestrator invokes.
    Each returns a promise. *)

Inductive call : Type :=
| DsUpdateStatus (client messageId : value) (st : queueState) (description : value)
| DsReadMessage (client messageId : value)
| DsUpdateMessageSendResult (client messageId : value) (r : sendresult)
| DsDeleteMessageEmail (client messageId : value)
| EmailSend (e : option envelope)
| QueueAdd (payload : jobdata) (opts : gmap string value)
| QueueGetJob (jobId : value)
| JobGetState (job : jobref)
| JobRemove (job : jobref)
| JobUpdate (job : jobref) (payload : option jobdata).

Global Instance call_eq_dec : EqDecision call.
Proof. solve_decision. Defined.

(** The type a call's promise is fulfilled with. *)
Definition resp (c : call) : Type :=
  match c with
  | DsReadMessage _ _ => message
  | EmailSend _ => smtpresult
  | QueueAdd _ _ => jobref
  | QueueGetJob _ => option jobref
  | JobGetState _ => string
  | _ => unit
  end.

(** A Data Store call that writes. *)
Definition ds_write (c : call) : bool :=
  match c with
  | DsUpdateStatus _ _ _ _ | DsUpdateMessageSendResult _ _ _
  | DsDeleteMessageEmail _ _ => true
  | _ => false
  end.

(** Log lines, [log.info(...)] and [log.error(...)]. *)
Inductive level : Type := LInfo | LError.

Record logentry : Type := LogEntry {
  log_level : level;
  log_args : list string
}.

Global Instance level_eq_dec : EqDecision level.
Proof. solve_decision. Defined.
Global Instance logentry_eq_dec : EqDecision logentry.
Proof. solve_decision. Defined.

(** Synchronous steps: property reads on a Job object and logging. *)
Inductive prim : Type :=
| ReadId (job : jobref)
| ReadData (job : jobref)
| Log (l : logentry).

Definition prim_resp (p : prim) : Type :=
  match p with
  | ReadId _ => value
  | ReadData _ => option jobdata
  | Log _ => unit
  end.

(** ** Programs

    [Await c k] invokes the collaborator and suspends until its promise
    settles; [k] receives the outcome.  [Detach t k] is a call whose promise
    is dropped: [t] is started and [k] goes on without waiting for it. *)

Inductive prog (A : Type) : Type :=
| Ret (a : A)
| Throw (e : error)
| Step (p : prim) (k : prim_resp p → prog A)
| Await (c : call) (k : outcome (resp c) → prog A)
| Detach (t : prog unit) (k : prog A).
Arguments Ret {A} a.
Arguments Throw {A} e.
Arguments Step {A} p k.
Arguments Await {A} c k.
Arguments Detach {A} t k.

Fixpoint bind {A B} (p : prog A) (f : A → prog B) : prog B :=
  match p with
  | Ret a => f a
  | Throw e => Throw e
  | Step s k => Step s (λ r, bind (k r) f)
  | Await c k => Await c (λ r, bind (k r) f)
  | Detach t k => Detach t (bind k f)
  end.

Global Instance prog_ret : MRet prog := @Ret.
Global Instance prog_bind : MBind prog := λ A B f p, bind p f.

(** [try { p } catch (e) { h e }].  A promise dropped inside [p] is not
    covered by the handler. *)
Fixpoint try_catch {A} (p : prog A) (h : error → prog A) : prog A :=
  match p with
  | Ret a => Ret a
  | Throw e => h e
  | Step s k => Step s (λ r, try_catch (k r) h)
  | Await c k => Await c (λ r, try_catch (k r) h)
  | Detach t k => Detach t (try_catch k h)
  end.

(** [await c]: a rejection is thrown at the point of the [await]. *)
Definition await (c : call) : prog (resp c) :=
  Await c (λ r, match r with Ok v => Ret v | Err e => Throw e end).

Definition step (p : prim) : prog (prim_resp p) := Step p Ret.

(** A call to an async function without [await]. *)
Definition detach (t : prog unit) : prog unit := Detach t (Ret tt).

(** ** The world *)

(** What the record of calls holds: a collaborator method was invoked, or
    the promise it returned settled. *)
Inductive event : Type :=
| Started (c : call)
| Settled (c : call) (ok : bool).

Global Instance event_eq_dec : EqDecision event.
Proof. solve_decision. Defined.

(** An async function suspended at an [await]. *)
Inductive task : Type :=
| Task (c : call) (k : outcome (resp c) → prog unit).

Record world : Type := World {
  store : gmap (value * value) message;   (* Data Store, by (client, messageId) *)
  queue : gmap value qentry;               (* Job Queue, by job id *)
  heap : list jobobj;                      (* Job objects handed out so far *)
  outbox : list envelope;                  (* what the Mail Transport accepted *)
  smtp : envelope → smtpresult;            (* what the Mail Transport answers *)
  logs : list logentry;
  trace : list event;
  faults : nat → option string;            (* which collaborator call is rejected *)
  clock : nat;                             (* collaborator calls settled so far *)
  pending : list task;                     (* dropped promises not settled yet *)
  unhandled : list error                   (* rejections nobody awaited *)
}.

Definition set_store (f : gmap (value * value) message → gmap (value * value) message)
    (w : world) : world :=
  World (f (store w)) (queue w) (heap w) (outbox w) (smtp w) (logs w) (trace w)
        (faults w) (clock w) (pending w) (unhandled w).

Definition set_queue (f : gmap value qentry → gmap value qentry) (w : world) : world :=
  World (store w) (f (queue w)) (heap w) (outbox w) (smtp w) (logs w) (trace w)
        (faults w) (clock w) (pending w) (unhandled w).

Definition set_heap (f : list jobobj → list jobobj) (w : world) : world :=
  World (store w) (queue w) (f (heap w)) (outbox w) (smtp w) (logs w) (trace w)
        (faults w) (clock w) (pending w) (unhandled w).

Definition set_outbox (f : list envelope → list envelope) (w : world) : world :=
  World (store w) (queue w) (heap w) (f (outbox w)) (smtp w) (logs w) (trace w)
        (faults w) (clock w) (pending w) (unhandled w).

Definition set_logs (f : list logentry → list logentry) (w : world) : world :=
  World (store w) (queue w) (heap w) (outbox w) (smtp w) (f (logs w)) (trace w)
        (faults w) (clock w) (pending w) (unhandled w).

Definition set_trace (f : list event → list event) (w : world) : world :=
  World (store w) (queue w) (heap w) (outbox w) (smtp w) (logs w) (f (trace w))
        (faults w) (clock w) (pending w) (unhandled w).

Definition set_clock (f : nat → nat) (w : world) : world :=
  World (store w) (queue w) (heap w) (outbox w) (smtp w) (logs w) (trace w)
        (faults w) (f (clock w)) (pending w) (unhandled w).

Definition set_pending (f : list task → list task) (w : world) : world :=
  World (store w) (queue w) (heap w) (outbox w) (smtp w) (logs w) (trace w)
        (faults w) (clock w) (f (pending w)) (unhandled w).

Definition set_unhandled (f : list error → list error) (w : world) : world :=
  World (store w) (queue w) (heap w) (outbox w) (smtp w) (logs w) (trace w)
        (faults w) (clock w) (pending w) (f (unhandled w)).

Definition record (e : event) : world → world := set_trace (λ t, t ++ [e]).

(** ** The collaborators *)

Definition with_status (st : queueState) (description : value) (m : message) : message :=
  Message st description (email m) (sendResult m).

Definition with_sendResult (r : sendresult) (m : message) : message :=
  Message COMPLETED (statusDescription m) (email m) (Some r).

Definition without_email (m : message) : message :=
  Message (status m) (statusDescription m) None (sendResult m).

Definition with_payload (d : option jobdata) (q : qentry) : qentry :=
  QEntry d (q_state q) (q_opts q).

Definition not_found : error := Error "Message not found".
Definition not_a_job : error := Error "TypeError: not a Job".

(** Modelled from the spec: [services/dataSvc.js] is missing from the
    sources.  Section 6 gives the Data Store as four operations on the record
    kept for (client, messageId): [updateStatus] writes status and
    description, [readMessage] returns the record, [updateMessageSendResult]
    writes the send result and marks the Message COMPLETED, since by section
    3 a Message has a send result exactly when it is COMPLETED and by section
    8 a send that succeeds leaves both; [deleteMessageEmail] drops the body.
    A record that does not exist makes the operation fail. *)
Definition on_record (client messageId : value) (f : message → message)
    (w : world) : outcome unit * world :=
  match store w !! (client, messageId) with
  | Some m => (Ok tt, set_store <[(client, messageId) := f m]> w)
  | None => (Err not_found, w)
  end.

(** Modelled from the spec: [services/queueConn.js] and the queue engine are
    missing from the sources.  Section 6: [add] makes a Job under
    [options.jobId] unless one is live under that id, a Job with a delay
    starts in state delayed; [getJob] hands out a Job object or null;
    [getState] answers the Job's state in the Queue; [remove] takes the Job
    out of the Queue; [update] replaces the payload, on the Job object and in
    the Queue. *)
Definition queue_add (payload : jobdata) (opts : gmap string value)
    (w : world) : outcome jobref * world :=
  let id := default VUndefined (opts !! "jobId") in
  let st := if truthy (default VUndefined (opts !! "delay")) then "delayed" else "waiting" in
  let q := match queue w !! id with
           | Some _ => queue w
           | None => <[id := QEntry (Some payload) st opts]> (queue w)
           end in
  (Ok (length (heap w)),
   set_heap (λ h, h ++ [JobObj id (Some payload)]) (set_queue (λ _, q) w)).

Definition queue_getJob (jobId : value) (w : world) : outcome (option jobref) * world :=
  match queue w !! jobId with
  | Some q => (Ok (Some (length (heap w))),
               set_heap (λ h, h ++ [JobObj jobId (q_payload q)]) w)
  | None => (Ok None, w)
  end.

Definition job_getState (job : jobref) (w : world) : outcome string * world :=
  match heap w !! job with
  | Some o => (Ok (match queue w !! job_id o with
                   | Some q => q_state q
                   | None => "stuck"
                   end), w)
  | None => (Err not_a_job, w)
  end.

Definition job_remove (job : jobref) (w : world) : outcome unit * world :=
  match heap w !! job with
  | Some o => (Ok tt, set_queue (delete (job_id o)) w)
  | None => (Err not_a_job, w)
  end.

Definition job_update (job : jobref) (payload : option jobdata)
    (w : world) : outcome unit * world :=
  match heap w !! job with
  | Some o => (Ok tt,
               set_heap <[job := JobObj (job_id o) payload]>
                 (set_queue (alter (with_payload payload) (job_id o)) w))
  | None => (Err not_a_job, w)
  end.

(** Modelled from the spec: [services/emailSvc.js] is missing from the
    sources.  Section 6: [send] takes an envelope and answers
    [{ messageId, response }]; without an envelope it fails. *)
Definition email_send (e : option envelope) (w : world) : outcome smtpresult * world :=
  match e with
  | Some env => (Ok (smtp w env), set_outbox (λ o, o ++ [env]) w)
  | None => (Err (Error "No envelope"), w)
  end.

(** What a call does when the collaborator is available. *)
Definition effect (c : call) (w : world) : outcome (resp c) * world :=
  match c return outcome (resp c) * world with
  | DsUpdateStatus client messageId st description =>
      on_record client messageId (with_status st description) w
  | DsReadMessage client messageId =>
      match store w !! (client, messageId) with
      | Some m => (Ok m, w)
      | None => (Err not_found, w)
      end
  | DsUpdateMessageSendResult client messageId r =>
      on_record client messageId (with_sendResult r) w
  | DsDeleteMessageEmail client messageId =>
      on_record client messageId without_email w
  | EmailSend e => email_send e w
  | QueueAdd payload opts => queue_add payload opts w
  | QueueGetJob jobId => queue_getJob jobId w
  | JobGetState job => job_getState job w
  | JobRemove job => job_remove job w
  | JobUpdate job payload => job_update job payload w
  end.

(** The promise of a call settles: rejected with a generic error, and
    without effect, when the collaborator is unavailable at this call;
    otherwise with what the collaborator does. *)
Definition settle (c : call) (w : world) : outcome (resp c) * world :=
  match faults w (clock w) with
  | Some m => (Err (Error m), record (Settled c false) (set_clock S w))
  | None =>
      let '(r, w') := effect c (set_clock S w) in
      (r, record (Settled c (fulfilled r)) w')
  end.

Definition do_prim (p : prim) (w : world) : prim_resp p * world :=
  match p return prim_resp p * world with
  | ReadId job => (default VUndefined (job_id <$> heap w !! job), w)
  | ReadData job => (heap w !! job ≫= job_data, w)
  | Log l => (tt, set_logs (λ ls, ls ++ [l]) w)
  end.

(** ** Running a program *)

(** A dropped call runs up to its first [await]: the collaborator method is
    invoked, the rest waits in [pending]. *)
Fixpoint start (t : prog unit) (w : world) : world :=
  match t with
  | Ret _ => w
  | Throw e => set_unhandled (λ u, u ++ [e]) w
  | Step p k => let '(r, w') := do_prim p w in start (k r) w'
  | Await c k => set_pending (λ ts, ts ++ [Task c k]) (record (Started c) w)
  | Detach t' k => start k (start t' w)
  end.

(** The caller's own chain: every [await] waits for its promise. *)
Fixpoint run {A} (p : prog A) (w : world) : outcome A * world :=
  match p with
  | Ret a => (Ok a, w)
  | Throw e => (Err e, w)
  | Step s k => let '(r, w') := do_prim s w in run (k r) w'
  | Await c k => let '(r, w') := settle c (record (Started c) w) in run (k r) w'
  | Detach t k => run k (start t w)
  end.

(** The event loop settles a dropped promise and runs what waited for it. *)
Definition resume (t : task) (w : world) : world :=
  match t with
  | Task c k =>
      let '(r, w1) := settle c w in
      match run (k r) w1 with
      | (Ok _, w2) => w2
      | (Err e, w2) => set_unhandled (λ u, u ++ [e]) w2
      end
  end.

Fixpoint drain (fuel : nat) (w : world) : world :=
  match fuel with
  | O => w
  | S n =>
      match pending w with
      | [] => w
      | t :: ts => drain n (resume t (set_pending (λ _, ts) w))
      end
  end.

(** ** QueueService *)

(** [components/utils.js] is missing from the sources; [prettyStringify]
    renders its argument as a string, which [sendMessage] only logs. *)
Definition prettyStringify (e : error) : string := "{ " +:+ message_of e +:+ " }".

(** The [message] argument of [enqueue]; only [message.messageId] is read. *)
Record submission : Type := Submission {
  messageId : value;
  body : envelope
}.

(** [job.data.x] where nothing guards [job.data]: reading a property of
    [null] throws a TypeError. *)
Definition read_data (job : jobref) : prog jobdata :=
  data ← step (ReadData job);
  match data with
  | Some d => Ret d
  | None => Throw (Error "TypeError: Cannot read property of null")
  end.

(** The guard [job && job.data && job.data.messageId && job.data.client]. *)
Definition identified (job : option jobref) : prog (option (jobref * jobdata)) :=
  match job with
  | None => Ret None
  | Some j =>
      data ← step (ReadData j);
      Ret (match data with
           | Some d =>
               if truthy (data_messageId d) && truthy (data_client d)
               then Some (j, d) else None
           | None => None
           end)
  end.

Definition info (prefix msg : string) : prog unit :=
  step (Log (LogEntry LInfo [prefix; msg])).

Definition error1 (msg : string) : prog unit :=
  step (Log (LogEntry LError [msg])).

Definition error2 (prefix msg : string) : prog unit :=
  step (Log (LogEntry LError [prefix; msg])).

(** [async enqueue(client, message, opts = {})] *)
Definition enqueue (client : value) (message : submission)
    (opts : gmap string value) : prog unit :=
  await (DsUpdateStatus client (messageId message) ENQUEUED VUndefined);;
  try_catch
    (job ← await (QueueAdd (JobData client (messageId message))
                           (<["jobId" := messageId message]> opts));
     id ← step (ReadId job);
     info "enqueue" ("Job " +:+ to_string id +:+ " enqueued"))
    (λ e, error1 (message_of e)).

(** [async updateContent(job)] *)
Definition updateContent (job : option jobref) : prog unit :=
  try_catch
    (match job with
     | None => Ret tt
     | Some j =>
         data ← step (ReadData j);
         match data with
         | None => Ret tt
         | Some d =>
             (if truthy (data_messageId d) && truthy (data_client d)
              then await (DsDeleteMessageEmail (data_client d) (data_messageId d))
              else Ret tt);;
             await (JobUpdate j None)
         end
     end)
    (λ e,
       match job with
       | None => Throw (Error "TypeError: Cannot read property of null")
       | Some j =>
           id ← step (ReadId j);
           error2 "updateContent"
             ("Failed to update content for message " +:+ to_string id +:+ ". "
              +:+ message_of e)
       end).

(** [async updateStatus(job, status, description)] *)
Definition updateStatus (job : option jobref) (st : queueState)
    (description : value) : prog unit :=
  ids ← identified job;
  match ids with
  | Some (j, d) =>
      await (DsUpdateStatus (data_client d) (data_messageId d) st description)
  | None => Ret tt
  end.

(** [async sendMessage(job)] *)
Definition sendMessage (job : option jobref) : prog unit :=
  ids ← identified job;
  match ids with
  | Some (j, d) =>
      try_catch
        (msg ← await (DsReadMessage (data_client d) (data_messageId d));
         smtpResult ← await (EmailSend (email msg));
         let sendResult :=
           SendResult (smtp_messageId smtpResult) (smtp_response smtpResult) in
         await (DsUpdateMessageSendResult (data_client d) (data_messageId d) sendResult))
        (λ e,
           d' ← read_data j;
           error2 "sendMessage"
             ("Error sending message from queue: client = "
              +:+ to_string (data_client d') +:+ ", messageId = "
              +:+ to_string (data_messageId d') +:+ ". " +:+ message_of e);;
           error1 (prettyStringify e))
  | None => Ret tt
  end.

(** [async removeJob(client, jobId)] *)
Definition removeJob (client jobId : value) : prog bool :=
  job ← await (QueueGetJob jobId);
  ids ← identified job;
  match ids with
  | Some (j, d) =>
      (* Job found with proper structure *)
      if strict_ne (data_messageId d) jobId then
        Throw (DataIntegrityError
                 ("Message " +:+ to_string jobId +:+ " data is inconsistent or corrupted."))
      else if strict_ne (data_client d) client then
        Throw (ClientMismatchError
                 ("Message " +:+ to_string jobId +:+ " is not owned by client "
                  +:+ to_string (data_client d) +:+ "."))
      else
        st ← await (JobGetState j);
        if negb (String.eqb st "delayed") then
          Throw (UncancellableError
                   ("Message " +:+ to_string jobId +:+ " is not cancellable."))
        else
          (* Immediately remove from queue *)
          await (JobRemove j);;
          (* Update DB with cancelled status *)
          d1 ← read_data j;
          detach (await (DsUpdateStatus client (data_messageId d1) REMOVED VUndefined));;
          detach (updateContent (Some j));;
          d2 ← read_data j;
          info "removeJob"
            ("Message " +:+ to_string (data_messageId d2) +:+ " removed from queue");;
          Ret true
  | None => Ret false
  end.

(** ** What a run returns and leaves behind *)

Definition result {A} (p : prog A) (w : world) : outcome A := (run p w).1.
Definition after {A} (p : prog A) (w : world) : world := (run p w).2.

Definition call_of (ev : event) : call :=
  match ev with
  | Started c | Settled c _ => c
  end.

Definition task_call (t : task) : call :=
  match t with Task c _ => c end.

(** A call that takes a Job out of the Queue. *)
Definition removes (c : call) : bool :=
  match c with
  | JobRemove _ => true
  | _ => false
  end.

(** Nothing follows the first rejected call. *)
Fixpoint stops_at_rejection (evs : list event) : bool :=
  match evs with
  | [] => true
  | Settled _ false :: rest => bool_decide (rest = [])
  | _ :: rest => stops_at_rejection rest
  end.

(** The two awaited events of a call. *)
Definition awaited (c : call) (ok : bool) : list event :=
  [Started c; Settled c ok].

(** Does some call in the list end in a rejection? *)
Definition rejection_in (evs : list event) : bool :=
  existsb (λ ev, match ev with Settled _ false => true | _ => false end) evs.

(** The world once a call has been made, and once it has settled without a
    change to the collaborator's state. *)
Definition asked (c : call) (w : world) : world :=
  set_clock S (record (Started c) w).
Definition answered (c : call) (w : world) : world :=
  record (Settled c true) (asked c w).
Definition rejected (c : call) (w : world) : world :=
  record (Settled c false) (asked c w).

(** Sequencing and handling on the result of a run. *)
Definition and_then {A B} (r : outcome A * world)
    (f : A → world → outcome B * world) : outcome B * world :=
  match r with
  | (Ok a, w') => f a w'
  | (Err e, w') => (Err e, w')
  end.

Definition or_else {A} (r : outcome A * world)
    (h : error → world → outcome A * world) : outcome A * world :=
  match r with
  | (Ok a, w') => (Ok a, w')
  | (Err e, w') => h e w'
  end.

(** What the guard [identified] finds in a given world. *)
Definition ids_of (job : option jobref) (w : world) : option (jobref * jobdata) :=
  match job with
  | None => None
  | Some j =>
      match heap w !! j ≫= job_data with
      | Some d =>
          if truthy (data_messageId d) && truthy (data_client d)
          then Some (j, d) else None
      | None => None
      end
  end.

(** What is left of a dropped [updateContent] once it has asked for the
    deletion of the email: wait for the answer, clear the payload, and log
    whatever fails. *)
Definition scrub_rest (j : jobref) (r : outcome unit) : prog unit :=
  try_catch
    ((match r with Ok v => Ret v | Err e => Throw e end) ≫=
       λ _, await (JobUpdate j None))
    (λ e,
       id ← step (ReadId j);
       error2 "updateContent"
         ("Failed to update content for message " +:+ to_string id +:+ ". "
          +:+ message_of e)).

(** ** Concrete situations *)

Module Scenario.

Definition acme : value := VStr "acme".
Definition zed : value := VStr "zed".
Definition m1 : value := VStr "m1".
Definition m2 : value := VStr "m2".

Definition available : nat → option string := λ _, None.

(** Unavailable at the [n]-th call from now. *)
Definition down_at (n : nat) : nat → option string :=
  λ i, if Nat.eqb i n then Some "ECONNREFUSED" else None.

Definition reply : envelope → smtpresult :=
  λ _, SmtpResult (VStr "abc") (VStr "250 OK").

Definition stored : gmap (value * value) message :=
  {[ (acme, m1) := Message ENQUEUED VUndefined (Some "hello") None ]}.

Definition world_of (q : gmap value qentry) (h : list jobobj)
    (f : nat → option string) : world :=
  World stored q h [] reply [] [] f 0 [] [].

Definition queued (d : option jobdata) (st : string) : gmap value qentry :=
  {[ m1 := QEntry d st ∅ ]}.

Definition own_data : jobdata := JobData acme m1.

(** [m1] waits for its delay to pass. *)
Definition w_delayed : world :=
  world_of (queued (Some own_data) "delayed") [] available.

(** [m1] is being sent. *)
Definition w_active : world :=
  world_of (queued (Some own_data) "active") [] available.

(** The Job kept under [m1] names another message. *)
Definition w_corrupt : world :=
  world_of (queued (Some (JobData acme m2)) "delayed") [] available.

(** The payload of [m1] has an empty client. *)
Definition w_anonymous : world :=
  world_of (queued (Some (JobData (VStr "") m1)) "delayed") [] available.

(** Nothing is queued. *)
Definition w_idle : world := world_of ∅ [] available.

(** A consumer holds the Job object of [m1]. *)
Definition w_consumer (f : nat → option string) : world :=
  world_of (queued (Some own_data) "active") [JobObj m1 (Some own_data)] f.

End Scenario.

(** What a settled task leaves: the world its continuation ends in, with an
    error nobody awaits recorded as unhandled. *)
Definition settled_task (r : outcome unit * world) : world :=
  match r with
  | (Ok _, w2) => w2
  | (Err e, w2) => set_unhandled (λ u, u ++ [e]) w2
  end.

(** ** components/email.js

    The envelope builder and the two senders of [components/email.js].  A
    message and an envelope are objects: finite maps from the names of their
    own properties to values of some type [V]. *)

Module Email.
Section Envelope.
Context {V : Type}.

(** What a missing property reads as. *)
Variable undefined : V.

(** The property name a value stands for in [{ [v]: ... }]. *)
Variable key_of : V → string.

(** [utils.filterUndefinedAndEmpty]; [components/utils.js] is missing from
    the sources, so the filter is left open. *)
Variable filterUndefinedAndEmpty : gmap string V → gmap string V.

(** [o[k]] *)
Definition prop (o : gmap string V) (k : string) : V := default undefined (o !! k).

(** [Object.assign(o, { [k]: v })] copies the one property with an ordinary
    assignment [o[k] = v].  The map holds the properties an object has of its
    own.  An assignment makes or overwrites such a property, except under the
    name ["__proto__"] on an object that has no property of that name itself:
    there the assignment reaches the accessor of [Object.prototype], which
    makes no property. *)
Definition assign (o : gmap string V) (k : string) (v : V) : gmap string V :=
  if decide (k = "__proto__") then
    match o !! k with
    | Some _ => <[k := v]> o
    | None => o
    end
  else <[k := v]> o.

(** [createEnvelope: message => ...] *)
Definition createEnvelope (message : gmap string V) : gmap string V :=
  let envelope := filterUndefinedAndEmpty message in
  (* Reassign the body field into the type specified by bodyType *)
  let envelope :=
    delete "body" (assign envelope (key_of (prop message "bodyType")) (prop envelope "body")) in
  (* Remove the bodyType property *)
  delete "bodyType" envelope.

(** The transports are nodemailer's: [T] a transporter, [A] a test account,
    [I] the info object a send answers with, [U] a preview URL. *)
Context {T A I U : Type}.

(** [nodemailer.createTestAccount()]; the argument counts the accounts asked
    for before. *)
Variable createTestAccount : nat → outcome A.

(** [nodemailer.createTransport({ host, port, auth })] from a test account. *)
Variable createTransport : A → T.

(** [transporter.sendMail(envelope)]; the number counts the sends made
    before. *)
Variable transport : T → nat → gmap string V → outcome I.

(** [nodemailer.getTestMessageUrl(info)], [info.messageId] and
    [utils.prettyStringify(testAccount)]. *)
Variable getTestMessageUrl : I → U.
Variable messageId_of : I → string.
Variable stringify_account : A → string.

(** The lines the module logs. *)
Inductive logline : Type :=
| Debug_sendMail (info : I)
| Error_sendMail (message : string)
| Debug_account (account : string)
| Info_sent (messageId : string)
| Info_preview (url : U).

(** The module's variable [etherealTransporter], and what has been asked of
    nodemailer so far. *)
Record state : Type := State {
  etherealTransporter : option T;
  accounts : nat;
  sends : list (T * gmap string V);
  lines : list logline
}.

(** [sendMail: async (transporter, message) => ...] *)
Definition sendMail (transporter : T) (message : gmap string V)
    (s : state) : outcome I * state :=
  let envelope := createEnvelope message in
  let sent := sends s ++ [(transporter, envelope)] in
  match transport transporter (length (sends s)) envelope with
  | Ok info =>
      (Ok info,
       State (etherealTransporter s) (accounts s) sent
         (lines s ++ [Debug_sendMail info]))
  | Err error =>
      (Err error,
       State (etherealTransporter s) (accounts s) sent
         (lines s ++ [Error_sendMail (message_of error)]))
  end.

(** The part of [sendMailEthereal] after the [if]: send through the
    transporter now in [etherealTransporter], log, and answer the preview
    URL. *)
Definition send_and_preview (t : T) (message : gmap string V)
    (s : state) : outcome U * state :=
  match sendMail t message s with
  | (Ok info, s') =>
      let testMessageUrl := getTestMessageUrl info in
      (Ok testMessageUrl,
       State (etherealTransporter s') (accounts s') (sends s')
         (lines s' ++ [Info_sent (messageId_of info); Info_preview testMessageUrl]))
  | (Err error, s') => (Err error, s')
  end.

(** [sendMailEthereal: async message => ...] *)
Definition sendMailEthereal (message : gmap string V) (s : state) : outcome U * state :=
  match etherealTransporter s with
  | None =>
      match createTestAccount (accounts s) with
      | Ok testAccount =>
          send_and_preview (createTransport testAccount) message
            (State (Some (createTransport testAccount)) (S (accounts s)) (sends s)
               (lines s ++ [Debug_account (stringify_account testAccount)]))
      | Err error =>
          (Err error, State None (S (accounts s)) (sends s) (lines s))
      end
  | Some t => send_and_preview t message s
  end.

(** One call of [sendMailEthereal] after the other. *)
Definition sendAll (messages : list (gmap string V)) (s : state) : state :=
  foldl (λ s m, (sendMailEthereal m s).2) s messages.

End Envelope.
End Email.

(** ** The accessors of QueueService *)

Module Service.
Section Accessors.
Context {C D E Q : Type}.

(** [v.queue], the queue of a QueueConnection. *)
Variable queue_of : C → Q.

(** The private fields of a QueueService; [None] before the first
    assignment. *)
Record t : Type := Make {
  _connection : option C;
  _queue : option Q;
  _dataService : option D;
  _emailService : option E
}.

Definition blank : t := Make None None None None.

(** [set connection(v)]: also sets the internal queue. *)
Definition set_connection (v : C) (s : t) : t :=
  Make (Some v) (Some (queue_of v)) (_dataService s) (_emailService s).

(** [set dataService(v)] *)
Definition set_dataService (v : D) (s : t) : t :=
  Make (_connection s) (_queue s) (Some v) (_emailService s).

(** [set emailService(v)] *)
Definition set_emailService (v : E) (s : t) : t :=
  Make (_connection s) (_queue s) (_dataService s) (Some v).

(** [constructor()], given the three objects it creates. *)
Definition constructor (c : C) (d : D) (e : E) : t :=
  set_emailService e (set_dataService d (set_connection c blank)).

(** [get connection()] and [get queue()] *)
Definition connection (s : t) : option C := _connection s.
Definition queue (s : t) : option Q := _queue s.

(** An assignment to one of the three properties. *)
Inductive assignment : Type :=
| Connection (v : C)
| DataService (v : D)
| EmailService (v : E).

Definition assign (s : t) (a : assignment) : t :=
  match a with
  | Connection v => set_connection v s
  | DataService v => set_dataService v s
  | EmailService v => set_emailService v s
  end.

(** The connection assigned last in a list of assignments, if any. *)
Fixpoint last_connection (l : list assignment) : option C :=
  match l with
  | [] => None
  | a :: l' =>
      match last_connection l' with
      | Some c => Some c
      | None => match a with Connection v => Some v | _ => None end
      end
  end.

End Accessors.
End Service.

(** ** More concrete situations *)

Module Cases.

(** The Queue cannot be reached at the [n]-th call; [m1] is delayed. *)
Definition w_delayed_down (n : nat) : world :=
  Scenario.world_of (Scenario.queued (Some Scenario.own_data) "delayed") []
    (Scenario.down_at n).

(** A consumer holds a Job whose payload has been cleared. *)
Definition w_scrubbed : world :=
  Scenario.world_of (Scenario.queued None "completed") [JobObj Scenario.m1 None]
    Scenario.available.

Definition delayed_opts : gmap string value := {[ "delay" := VNum 600000 ]}.

Definition html_message : gmap string value :=
  {[ "bodyType" := VStr "html"; "body" := VStr "<p>hello</p>";
     "subject" := VStr "greetings" ]}.

(** A message that names [body] as its body type. *)
Definition odd_message : gmap string value :=
  {[ "bodyType" := VStr "body"; "body" := VStr "hello" ]}.

Definition keep_all : gmap string value → gmap string value := λ m, m.

(** nodemailer as seen from a test: accounts can or cannot be had, every
    send is accepted. *)
Definition no_account : nat → outcome string := λ _, Err (Error "offline").
Definition an_account : nat → outcome string := λ _, Ok "test@ethereal.email".
Definition accepts : string → nat → gmap string value → outcome string :=
  λ _ _ _, Ok "250 Accepted".
Definition same : string → string := λ s, s.

Definition cached_state : @Email.state value string string string :=
  Email.State (Some "smtp.ethereal.email") 1 [] [].

Definition first_state : @Email.state value string string string :=
  Email.State None 0 [] [].

End Cases.

(** * Properties *)

(** ** How programs compose *)

Section Composition.
Context {A B : Type}.

(** Sequencing runs the first program, then the second on its value; an
    error of the first ends the run. *)
Lemma run_bind (p : prog A) (f : A → prog B) (w : world) :
  run (p ≫= f) w = and_then (run p w) (λ a, run (f a)).
Proof.
  unfold mbind, prog_bind, and_then. revert w.
  induction p as [A a|A e|A s k IH|A c k IH|A t _ k IH]; intros w; cbn; try done.
  - destruct (do_prim s w) as [r w']. apply IH.
  - destruct (settle c (record (Started c) w)) as [r w']. apply IH.
Qed.

(** The handler runs on an error of the body, and only then. *)
Lemma run_try_catch (p : prog A) (h : error → prog A) (w : world) :
  run (try_catch p h) w = or_else (run p w) (λ e, run (h e)).
Proof.
  unfold or_else. revert w.
  induction p as [A a|A e|A s k IH|A c k IH|A t _ k IH]; intros w; cbn; try done.
  - destruct (do_prim s w) as [r w']. apply IH.
  - destruct (settle c (record (Started c) w)) as [r w']. apply IH.
Qed.

Lemma and_then_ok (a : A) (w : world) (f : A → world → outcome B * world) :
  and_then (Ok a, w) f = f a w.
Proof. done. Qed.

Lemma and_then_err (e : error) (w : world) (f : A → world → outcome B * world) :
  and_then (Err e, w) f = (Err e, w).
Proof. done. Qed.

Lemma or_else_ok (a : A) (w : world) (h : error → world → outcome A * world) :
  or_else (Ok a, w) h = (Ok a, w).
Proof. done. Qed.

Lemma or_else_err (e : error) (w : world) (h : error → world → outcome A * world) :
  or_else (Err e, w) h = h e w.
Proof. done. Qed.

Lemma run_ret (a : A) (w : world) : run (Ret a) w = (Ok a, w).
Proof. done. Qed.

Lemma run_throw (e : error) (w : world) : run (@Throw A e) w = (Err e, w).
Proof. done. Qed.
End Composition.

(** A handler that cannot fail makes the whole block unable to fail. *)
Lemma try_catch_total {A} (p : prog A) (h : error → prog A) (w : world) :
  (∀ e w', ∃ a, result (h e) w' = Ok a) →
  ∃ a, result (try_catch p h) w = Ok a.
Proof.
  intros H. unfold result. rewrite run_try_catch.
  destruct (run p w) as [[a|e] w']; cbn; eauto.
Qed.

(** ** Small facts *)

Lemma lookup_fresh {X} (h : list X) (x : X) : (h ++ [x]) !! length h = Some x.
Proof. by apply list_lookup_middle. Qed.

Lemma strict_ne_true (a b : value) : a ≠ b → strict_ne a b = true.
Proof. intros H. unfold strict_ne. by rewrite bool_decide_eq_false_2. Qed.

Lemma strict_ne_refl (a : value) : strict_ne a a = false.
Proof. unfold strict_ne. by rewrite bool_decide_eq_true_2. Qed.

Lemma strict_ne_false (a b : value) : strict_ne a b = false → a = b.
Proof.
  unfold strict_ne. intros H%negb_false_iff. by apply bool_decide_eq_true in H.
Qed.

Lemma not_delayed (s : string) : s ≠ "delayed" → String.eqb s "delayed" = false.
Proof. intros H. by apply String.eqb_neq. Qed.

Lemma stops_at_rejection_sound (evs pre post : list event) (c : call) :
  stops_at_rejection evs = true →
  evs = pre ++ Settled c false :: post →
  post = [].
Proof.
  revert evs. induction pre as [|ev pre IH]; intros evs H ->; cbn in H.
  - by apply bool_decide_eq_true in H.
  - destruct ev as [c'|c' []]; try by eapply IH.
    apply bool_decide_eq_true in H. by destruct pre.
Qed.

Lemma rejection_in_middle (pre post : list event) (c : call) :
  rejection_in (pre ++ Settled c false :: post) = true.
Proof.
  unfold rejection_in. rewrite existsb_app. cbn. by rewrite orb_true_r.
Qed.

(** ** Synchronous steps *)

Lemma run_identified (job : option jobref) (w : world) :
  run (identified job) w = (Ok (ids_of job w), w).
Proof.
  destruct job as [j|]; [|done]. cbn. by destruct (heap w !! j ≫= job_data).
Qed.

Lemma ids_of_found (j : nat) (o : jobobj) (d : jobdata) (w : world) :
  heap w !! j = Some o →
  job_data o = Some d →
  truthy (data_messageId d) = true →
  truthy (data_client d) = true →
  ids_of (Some j) w = Some (j, d).
Proof. intros H D Tm Tc. unfold ids_of. rewrite H. cbn. by rewrite D, Tm, Tc. Qed.

Lemma ids_of_none (w : world) : ids_of None w = None.
Proof. done. Qed.

Lemma ids_of_lookup (j : nat) (o : jobobj) (w : world) :
  heap w !! j = Some o →
  ids_of (Some j) w =
    match job_data o with
    | Some d =>
        if truthy (data_messageId d) && truthy (data_client d)
        then Some (j, d) else None
    | None => None
    end.
Proof. intros H. unfold ids_of. by rewrite H. Qed.

Lemma ids_of_dangling (j : nat) (w : world) :
  heap w !! j = None → ids_of (Some j) w = None.
Proof. intros H. unfold ids_of. by rewrite H. Qed.

Lemma run_ReadData (j : nat) (w : world) :
  run (step (ReadData j)) w =
    (Ok (match heap w !! j with Some o => job_data o | None => None end), w).
Proof. cbn. by destruct (heap w !! j). Qed.

Lemma run_read_data (j : nat) (o : jobobj) (d : jobdata) (w : world) :
  heap w !! j = Some o →
  job_data o = Some d →
  run (read_data j) w = (Ok d, w).
Proof. intros H D. cbn. rewrite H. cbn. by rewrite D. Qed.

Lemma run_read_id (j : nat) (w : world) :
  run (step (ReadId j)) w = (Ok (default VUndefined (job_id <$> heap w !! j)), w).
Proof. done. Qed.

Lemma run_info (a b : string) (w : world) :
  run (info a b) w = (Ok tt, set_logs (λ ls, ls ++ [LogEntry LInfo [a; b]]) w).
Proof. done. Qed.

Lemma run_error1 (a : string) (w : world) :
  run (error1 a) w = (Ok tt, set_logs (λ ls, ls ++ [LogEntry LError [a]]) w).
Proof. done. Qed.

Lemma run_error2 (a b : string) (w : world) :
  run (error2 a b) w = (Ok tt, set_logs (λ ls, ls ++ [LogEntry LError [a; b]]) w).
Proof. done. Qed.

Lemma run_detach (t : prog unit) (w : world) :
  run (detach t) w = (Ok tt, start t w).
Proof. done. Qed.

(** ** Collaborator calls, one by one *)

Ltac settle_with avail :=
  cbn; unfold settle; cbn; rewrite avail; cbn;
  unfold on_record, queue_getJob, job_getState, job_remove, job_update,
    queue_add, email_send; cbn.

(** Whatever the call, an unavailable collaborator rejects it and nothing
    else changes. *)
Lemma run_await_rejected (c : call) (w : world) (m : string) :
  faults w (clock w) = Some m →
  run (await c) w = (Err (Error m), rejected c w).
Proof. intros F. by settle_with F. Qed.

Section Calls.
Context (w : world) (avail : faults w (clock w) = None).

Lemma run_getJob_found (jobId : value) (q : qentry) :
  queue w !! jobId = Some q →
  run (await (QueueGetJob jobId)) w =
    (Ok (Some (length (heap w))),
     set_heap (λ h, h ++ [JobObj jobId (q_payload q)])
       (answered (QueueGetJob jobId) w)).
Proof using avail. intros Q. settle_with avail. by rewrite Q. Qed.

Lemma run_getJob_absent (jobId : value) :
  queue w !! jobId = None →
  run (await (QueueGetJob jobId)) w = (Ok None, answered (QueueGetJob jobId) w).
Proof using avail. intros Q. settle_with avail. by rewrite Q. Qed.

Lemma run_getState (j : nat) (o : jobobj) :
  heap w !! j = Some o →
  run (await (JobGetState j)) w =
    (Ok (match queue w !! job_id o with
         | Some q => q_state q
         | None => "stuck"
         end),
     answered (JobGetState j) w).
Proof using avail. intros H. settle_with avail. by rewrite H. Qed.

Lemma run_remove (j : nat) (o : jobobj) :
  heap w !! j = Some o →
  run (await (JobRemove j)) w =
    (Ok tt, set_queue (delete (job_id o)) (answered (JobRemove j) w)).
Proof using avail. intros H. settle_with avail. by rewrite H. Qed.

Lemma run_update (j : nat) (o : jobobj) (payload : option jobdata) :
  heap w !! j = Some o →
  run (await (JobUpdate j payload)) w =
    (Ok tt,
     set_heap <[j := JobObj (job_id o) payload]>
       (set_queue (alter (with_payload payload) (job_id o))
          (answered (JobUpdate j payload) w))).
Proof using avail. intros H. settle_with avail. by rewrite H. Qed.

Lemma run_update_dangling (j : nat) (payload : option jobdata) :
  heap w !! j = None →
  run (await (JobUpdate j payload)) w =
    (Err not_a_job, rejected (JobUpdate j payload) w).
Proof using avail. intros H. settle_with avail. by rewrite H. Qed.

Lemma run_add (payload : jobdata) (opts : gmap string value) :
  run (await (QueueAdd payload opts)) w =
    (Ok (length (heap w)),
     set_heap (λ h, h ++ [JobObj (default VUndefined (opts !! "jobId")) (Some payload)])
       (set_queue
          (λ qs, match qs !! default VUndefined (opts !! "jobId") with
                 | Some _ => qs
                 | None =>
                     <[default VUndefined (opts !! "jobId") :=
                         QEntry (Some payload)
                           (if truthy (default VUndefined (opts !! "delay"))
                            then "delayed" else "waiting") opts]> qs
                 end)
          (answered (QueueAdd payload opts) w))).
Proof using avail. by settle_with avail. Qed.

Lemma run_send (env : string) :
  run (await (EmailSend (Some env))) w =
    (Ok (smtp w env),
     set_outbox (λ o, o ++ [env]) (answered (EmailSend (Some env)) w)).
Proof using avail. by settle_with avail. Qed.

Lemma run_send_nothing :
  run (await (EmailSend None)) w =
    (Err (Error "No envelope"), rejected (EmailSend None) w).
Proof using avail. by settle_with avail. Qed.

Lemma run_readMessage (client mid : value) (m : message) :
  store w !! (client, mid) = Some m →
  run (await (DsReadMessage client mid)) w =
    (Ok m, answered (DsReadMessage client mid) w).
Proof using avail. intros H. settle_with avail. by rewrite H. Qed.

Lemma run_readMessage_absent (client mid : value) :
  store w !! (client, mid) = None →
  run (await (DsReadMessage client mid)) w =
    (Err not_found, rejected (DsReadMessage client mid) w).
Proof using avail. intros H. settle_with avail. by rewrite H. Qed.

Lemma run_dsUpdateStatus (client mid : value) (st : queueState)
    (description : value) (m : message) :
  store w !! (client, mid) = Some m →
  run (await (DsUpdateStatus client mid st description)) w =
    (Ok tt,
     set_store <[(client, mid) := with_status st description m]>
       (answered (DsUpdateStatus client mid st description) w)).
Proof using avail. intros H. settle_with avail. by rewrite H. Qed.

Lemma run_dsUpdateStatus_absent (client mid : value) (st : queueState)
    (description : value) :
  store w !! (client, mid) = None →
  run (await (DsUpdateStatus client mid st description)) w =
    (Err not_found, rejected (DsUpdateStatus client mid st description) w).
Proof using avail. intros H. settle_with avail. by rewrite H. Qed.

Lemma run_dsSendResult (client mid : value) (r : sendresult) (m : message) :
  store w !! (client, mid) = Some m →
  run (await (DsUpdateMessageSendResult client mid r)) w =
    (Ok tt,
     set_store <[(client, mid) := with_sendResult r m]>
       (answered (DsUpdateMessageSendResult client mid r) w)).
Proof using avail. intros H. settle_with avail. by rewrite H. Qed.

Lemma run_dsSendResult_absent (client mid : value) (r : sendresult) :
  store w !! (client, mid) = None →
  run (await (DsUpdateMessageSendResult client mid r)) w =
    (Err not_found, rejected (DsUpdateMessageSendResult client mid r) w).
Proof using avail. intros H. settle_with avail. by rewrite H. Qed.

Lemma run_dsDelete (client mid : value) (m : message) :
  store w !! (client, mid) = Some m →
  run (await (DsDeleteMessageEmail client mid)) w =
    (Ok tt,
     set_store <[(client, mid) := without_email m]>
       (answered (DsDeleteMessageEmail client mid) w)).
Proof using avail. intros H. settle_with avail. by rewrite H. Qed.

Lemma run_dsDelete_absent (client mid : value) :
  store w !! (client, mid) = None →
  run (await (DsDeleteMessageEmail client mid)) w =
    (Err not_found, rejected (DsDeleteMessageEmail client mid) w).
Proof using avail. intros H. settle_with avail. by rewrite H. Qed.
End Calls.

(** ** Detached work *)

(** A dropped status write has been handed to the Data Store and waits. *)
Lemma start_dsUpdateStatus (client mid : value) (st : queueState)
    (description : value) (w : world) :
  start (await (DsUpdateStatus client mid st description)) w =
    set_pending
      (λ ts, ts ++ [Task (DsUpdateStatus client mid st description)
                      (λ r, match r with Ok v => Ret v | Err e => Throw e end)])
      (record (Started (DsUpdateStatus client mid st description)) w).
Proof. reflexivity. Qed.

(** A dropped [updateContent] on an identified Job has asked the Data Store
    to delete the email and waits for the answer; [job.update] is still to
    come. *)
Lemma start_updateContent (j : nat) (o : jobobj) (d : jobdata) (w : world) :
  heap w !! j = Some o →
  job_data o = Some d →
  truthy (data_messageId d) = true →
  truthy (data_client d) = true →
  start (updateContent (Some j)) w =
    set_pending
      (λ ts, ts ++ [Task (DsDeleteMessageEmail (data_client d) (data_messageId d))
                      (scrub_rest j)])
      (record (Started (DsDeleteMessageEmail (data_client d) (data_messageId d))) w).
Proof.
  intros H D Tm Tc. unfold updateContent. cbn. rewrite H. cbn.
  by rewrite D, Tm, Tc.
Qed.

(** ** Stepping through a run

    A run is taken apart one call at a time with the equations above, so
    that every step of a proof is a rewrite. *)

Ltac world_simpl :=
  cbn [fst snd store queue heap outbox smtp logs trace faults clock pending
       unhandled set_store set_queue set_heap set_outbox set_logs set_trace
       set_clock set_pending set_unhandled record asked answered rejected
       job_id job_data negb andb].

Ltac world_simpl_in H :=
  cbn [fst snd store queue heap outbox smtp logs trace faults clock pending
       unhandled set_store set_queue set_heap set_outbox set_logs set_trace
       set_clock set_pending set_unhandled record asked answered rejected
       job_id job_data negb andb] in H.

Ltac side :=
  world_simpl; first [eassumption | apply lookup_fresh | reflexivity | done].

(** Rewrite with an equation about a run, its response types written as the
    goal has them. *)
Ltac rw L :=
  let E := fresh "E" in
  pose proof L as E; cbn [resp prim_resp] in E; erewrite E by side; clear E.

Ltac call :=
  lazymatch goal with
  | |- context [run (await ?c) ?w] =>
      lazymatch c with
      | QueueGetJob _ =>
          first [rw (run_getJob_found w) | rw (run_getJob_absent w)
                | rw (run_await_rejected c w)]
      | JobGetState _ => first [rw (run_getState w) | rw (run_await_rejected c w)]
      | JobRemove _ => first [rw (run_remove w) | rw (run_await_rejected c w)]
      | JobUpdate _ _ =>
          first [rw (run_update w) | rw (run_update_dangling w)
                | rw (run_await_rejected c w)]
      | QueueAdd _ _ => first [rw (run_add w) | rw (run_await_rejected c w)]
      | EmailSend _ =>
          first [rw (run_send w) | rw (run_send_nothing w)
                | rw (run_await_rejected c w)]
      | DsReadMessage _ _ =>
          first [rw (run_readMessage w) | rw (run_readMessage_absent w)
                | rw (run_await_rejected c w)]
      | DsUpdateStatus _ _ _ _ =>
          first [rw (run_dsUpdateStatus w) | rw (run_dsUpdateStatus_absent w)
                | rw (run_await_rejected c w)]
      | DsUpdateMessageSendResult _ _ _ =>
          first [rw (run_dsSendResult w) | rw (run_dsSendResult_absent w)
                | rw (run_await_rejected c w)]
      | DsDeleteMessageEmail _ _ =>
          first [rw (run_dsDelete w) | rw (run_dsDelete_absent w)
                | rw (run_await_rejected c w)]
      end
  end.

Ltac use_known :=
  match goal with
  | H : ?l = _ |- context [?l] => rewrite H
  end.

Ltac step :=
  first
    [ rewrite and_then_ok | rewrite and_then_err
    | rewrite or_else_ok | rewrite or_else_err
    | rewrite run_ret | rewrite run_throw
    | rewrite run_identified | rewrite run_info | rewrite run_error1
    | rewrite run_error2 | rewrite run_detach | rw run_read_id
    | rewrite start_dsUpdateStatus | erewrite start_updateContent by side
    | erewrite run_read_data by side
    | rewrite ids_of_none | erewrite ids_of_lookup by side
    | erewrite ids_of_dangling by side | rw run_ReadData
    | call
    | rewrite run_bind | rewrite run_try_catch
    | rewrite strict_ne_refl | rewrite String.eqb_refl
    | progress world_simpl
    | progress cbv beta iota
    | use_known ].

Ltac steps := cbn [resp prim_resp]; repeat step.

(** Name what the run in the goal returns and leaves behind, and keep one
    copy of the run to step through. *)
Ltac one_run :=
  unfold result, after;
  match goal with
  | |- context [run ?p ?w] =>
      let R := fresh "R" in
      let res := fresh "res" in
      let fin := fresh "fin" in
      destruct (run p w) as [res fin] eqn:R; revert R
  end.

Ltac ran :=
  steps;
  lazymatch goal with
  | |- (_, _) = (_, _) → _ => intros [= <- <-]
  | _ => fail "the run is not stepped through"
  end;
  world_simpl.

Ltac traces := world_simpl; cbn [awaited app]; rewrite <- ?app_assoc; try done.

(** ** removeJob *)

(** C1.  When the Queue holds a Job under [jobId] whose payload has a truthy
    client and messageId, [removeJob] applies its checks in a fixed order.
    A messageId different from [jobId] gives DataIntegrityError, whoever the
    caller is and whatever the state, and the Job's state has not been
    asked for.  Otherwise a client different from the caller gives
    ClientMismatchError, again without the state having been asked for.
    Otherwise a state other than delayed gives UncancellableError. *)
Theorem removeJob_check_order (client jobId : value) (w : world)
    (q : qentry) (d : jobdata) :
  faults w (clock w) = None →
  queue w !! jobId = Some q →
  q_payload q = Some d →
  truthy (data_client d) = true →
  truthy (data_messageId d) = true →
  let lookup := awaited (QueueGetJob jobId) true in
  let j := length (heap w) in
  (data_messageId d ≠ jobId →
     result (removeJob client jobId) w =
       Err (DataIntegrityError
              ("Message " +:+ to_string jobId +:+ " data is inconsistent or corrupted.")) ∧
     trace (after (removeJob client jobId) w) = trace w ++ lookup) ∧
  (data_messageId d = jobId → data_client d ≠ client →
     result (removeJob client jobId) w =
       Err (ClientMismatchError
              ("Message " +:+ to_string jobId +:+ " is not owned by client "
               +:+ to_string (data_client d) +:+ ".")) ∧
     trace (after (removeJob client jobId) w) = trace w ++ lookup) ∧
  (data_messageId d = jobId → data_client d = client →
   faults w (S (clock w)) = None → q_state q ≠ "delayed" →
     result (removeJob client jobId) w =
       Err (UncancellableError
              ("Message " +:+ to_string jobId +:+ " is not cancellable.")) ∧
     trace (after (removeJob client jobId) w) =
       trace w ++ lookup ++ awaited (JobGetState j) true).
Proof.
  intros F0 Q P Tc Tm lookup j. subst lookup j.
  split; [|split].
  - intros Hne%strict_ne_true. one_run. unfold removeJob. ran. split; [done|traces].
  - intros Hm Hne%strict_ne_true. one_run. unfold removeJob. ran. split; [done|traces].
  - intros Hm Hc F1 Hst%not_delayed. one_run. unfold removeJob. ran.
    split; [done|traces].
Qed.

Lemma removeJob_check_order_witness :
  result (removeJob Scenario.zed Scenario.m1) Scenario.w_corrupt =
    Err (DataIntegrityError "Message m1 data is inconsistent or corrupted.") ∧
  result (removeJob Scenario.zed Scenario.m1) Scenario.w_active =
    Err (ClientMismatchError "Message m1 is not owned by client acme.") ∧
  result (removeJob Scenario.acme Scenario.m1) Scenario.w_active =
    Err (UncancellableError "Message m1 is not cancellable.").
Proof.
  split; [|split].
  - refine (proj1 (proj1 (removeJob_check_order Scenario.zed Scenario.m1
      Scenario.w_corrupt (QEntry (Some (JobData Scenario.acme Scenario.m2)) "delayed" ∅)
      (JobData Scenario.acme Scenario.m2) _ _ _ _ _) _)); try reflexivity.
    discriminate.
  - refine (proj1 (proj1 (proj2 (removeJob_check_order Scenario.zed Scenario.m1
      Scenario.w_active (QEntry (Some Scenario.own_data) "active" ∅)
      Scenario.own_data _ _ _ _ _)) _ _)); try reflexivity.
    discriminate.
  - refine (proj1 (proj2 (proj2 (removeJob_check_order Scenario.acme Scenario.m1
      Scenario.w_active (QEntry (Some Scenario.own_data) "active" ∅)
      Scenario.own_data _ _ _ _ _)) _ _ _ _)); try reflexivity.
    discriminate.
Defined.

(** Closes a goal saying which parts of the world a run left alone and
    which calls it made. *)
Ltac unchanged :=
  world_simpl; repeat split; try done;
  eexists; split; [rewrite <- ?app_assoc; reflexivity | cbn; repeat constructor].

(** C2.  When [removeJob] throws one of its three errors, the Queue, the
    Data Store and the set of dropped promises are as they were: the only
    collaborator calls made are the lookup and, at most, the state query;
    none writes to the Data Store and none removes a Job. *)
Theorem removeJob_typed_error_no_change (client jobId : value) (w : world)
    (e : error) :
  result (removeJob client jobId) w = Err e →
  typed e = true →
  let w' := after (removeJob client jobId) w in
  queue w' = queue w ∧
  store w' = store w ∧
  pending w' = pending w ∧
  ∃ evs, trace w' = trace w ++ evs ∧
         Forall (λ ev, ds_write (call_of ev) = false ∧ removes (call_of ev) = false) evs.
Proof.
  intros R T w'. subst w'. revert R T. one_run. unfold removeJob.
  destruct (faults w (clock w)) as [m|] eqn:F0.
  { ran. intros [= <-]. discriminate. }
  destruct (queue w !! jobId) as [q|] eqn:Q; [|ran; intros [=]].
  destruct (q_payload q) as [d|] eqn:P; [|ran; intros [=]].
  destruct (truthy (data_messageId d)) eqn:Tm; [|ran; intros [=]].
  destruct (truthy (data_client d)) eqn:Tc; [|ran; intros [=]].
  destruct (strict_ne (data_messageId d) jobId) eqn:Hm.
  { ran. intros _ _. unchanged. }
  destruct (strict_ne (data_client d) client) eqn:Hc.
  { ran. intros _ _. unchanged. }
  destruct (faults w (S (clock w))) as [m|] eqn:F1.
  { ran. intros [= <-]. discriminate. }
  destruct (String.eqb (q_state q) "delayed") eqn:St; cycle 1.
  { ran. intros _ _. unchanged. }
  destruct (faults w (S (S (clock w)))) as [m|] eqn:F2.
  { ran. intros [= <-]. discriminate. }
  ran. intros [=].
Qed.

Lemma removeJob_typed_error_no_change_witness :
  let w' := after (removeJob Scenario.acme Scenario.m1) Scenario.w_active in
  queue w' = queue Scenario.w_active ∧
  store w' = store Scenario.w_active ∧
  pending w' = pending Scenario.w_active ∧
  ∃ evs, trace w' = trace Scenario.w_active ++ evs ∧
         Forall (λ ev, ds_write (call_of ev) = false ∧ removes (call_of ev) = false) evs.
Proof.
  apply (removeJob_typed_error_no_change Scenario.acme Scenario.m1 Scenario.w_active
           (UncancellableError "Message m1 is not cancellable."));
    reflexivity.
Defined.

(** C3.  When the Queue holds a Job under [jobId] whose payload names
    [jobId] and the caller, and the Job is delayed, [removeJob] takes the Job
    out of the Queue and returns true.  The status write REMOVED and the
    deletion of the stored email have been started and are not settled when
    it returns: the Data Store is as it was, and both wait among the dropped
    promises, whatever becomes of them later. *)
Theorem removeJob_success (client jobId : value) (w : world)
    (q : qentry) (d : jobdata) :
  faults w (clock w) = None →
  faults w (S (clock w)) = None →
  faults w (S (S (clock w))) = None →
  queue w !! jobId = Some q →
  q_payload q = Some d →
  truthy (data_client d) = true →
  truthy (data_messageId d) = true →
  data_messageId d = jobId →
  data_client d = client →
  q_state q = "delayed" →
  let w' := after (removeJob client jobId) w in
  let j := length (heap w) in
  let write := DsUpdateStatus client jobId REMOVED VUndefined in
  let scrub := DsDeleteMessageEmail client jobId in
  result (removeJob client jobId) w = Ok true ∧
  queue w' = delete jobId (queue w) ∧
  store w' = store w ∧
  trace w' = trace w ++ awaited (QueueGetJob jobId) true
                     ++ awaited (JobGetState j) true
                     ++ awaited (JobRemove j) true
                     ++ [Started write; Started scrub] ∧
  task_call <$> pending w' = (task_call <$> pending w) ++ [write; scrub] ∧
  logs w' = logs w ++ [LogEntry LInfo ["removeJob";
                         "Message " +:+ to_string jobId +:+ " removed from queue"]].
Proof.
  intros F0 F1 F2 Q P Tc Tm Hm Hc St w' j write scrub.
  subst w' j write scrub. one_run. unfold removeJob.
  ran. subst client jobId. repeat split; try done.
  - traces.
  - by rewrite !fmap_app, <- app_assoc.
Qed.

Lemma removeJob_success_witness :
  result (removeJob Scenario.acme Scenario.m1) Scenario.w_delayed = Ok true ∧
  queue (after (removeJob Scenario.acme Scenario.m1) Scenario.w_delayed) !! Scenario.m1 = None ∧
  status <$> store (after (removeJob Scenario.acme Scenario.m1) Scenario.w_delayed)
               !! (Scenario.acme, Scenario.m1) = Some ENQUEUED.
Proof.
  destruct (removeJob_success Scenario.acme Scenario.m1 Scenario.w_delayed
              (QEntry (Some Scenario.own_data) "delayed" ∅) Scenario.own_data)
    as (R & Q & Hs & _); try reflexivity.
  split; [exact R|]. split.
  - rewrite Q. reflexivity.
  - rewrite Hs. reflexivity.
Defined.

(** C8.  When the lookup finds no Job under [jobId], [removeJob] returns
    false and throws nothing; it has made no other call. *)
Theorem removeJob_absent (client jobId : value) (w : world) :
  faults w (clock w) = None →
  queue w !! jobId = None →
  let w' := after (removeJob client jobId) w in
  result (removeJob client jobId) w = Ok false ∧
  trace w' = trace w ++ awaited (QueueGetJob jobId) true ∧
  queue w' = queue w ∧ store w' = store w ∧ pending w' = pending w.
Proof.
  intros F0 Q w'. subst w'. one_run. unfold removeJob. ran.
  repeat split; try done. traces.
Qed.

Lemma removeJob_absent_witness :
  result (removeJob Scenario.acme Scenario.m1) Scenario.w_idle = Ok false.
Proof.
  apply (removeJob_absent Scenario.acme Scenario.m1 Scenario.w_idle); reflexivity.
Defined.

(** C10.  When the Queue returns a Job whose payload is null, or whose
    client or messageId is falsy (the empty string included), [removeJob]
    returns false as it does for a Job that does not exist: no
    DataIntegrityError, no removal, no Data Store write. *)
Theorem removeJob_unidentified (client jobId : value) (w : world) (q : qentry) :
  faults w (clock w) = None →
  queue w !! jobId = Some q →
  match q_payload q with
  | Some d => truthy (data_client d) && truthy (data_messageId d) = false
  | None => True
  end →
  let w' := after (removeJob client jobId) w in
  result (removeJob client jobId) w = Ok false ∧
  trace w' = trace w ++ awaited (QueueGetJob jobId) true ∧
  queue w' = queue w ∧ store w' = store w ∧ pending w' = pending w.
Proof.
  intros F0 Q H w'. subst w'. one_run. unfold removeJob.
  destruct (q_payload q) as [d|] eqn:P.
  - rewrite andb_comm in H. ran. repeat split; try done. traces.
  - ran. repeat split; try done. traces.
Qed.

Lemma removeJob_unidentified_witness :
  result (removeJob Scenario.acme Scenario.m1) Scenario.w_anonymous = Ok false ∧
  queue (after (removeJob Scenario.acme Scenario.m1) Scenario.w_anonymous)
    = queue Scenario.w_anonymous.
Proof.
  destruct (removeJob_unidentified Scenario.acme Scenario.m1 Scenario.w_anonymous
              (QEntry (Some (JobData (VStr "") Scenario.m1)) "delayed" ∅))
    as (R & _ & Q & _); try reflexivity.
  split; [exact R | exact Q].
Defined.

(** ** enqueue *)

(** C5.  [enqueue] asks the Data Store to record ENQUEUED and waits for the
    answer before it submits anything: when the write fails nothing is
    submitted, and otherwise the submission comes after the write has
    settled, with the record showing ENQUEUED.  The options handed to the
    Queue carry [message.messageId] under [jobId] whatever [opts] held
    there, and the Job made from them bears that id. *)
Theorem enqueue_write_before_publish (client : value) (message : submission)
    (opts : gmap string value) (w : world) :
  let w' := after (enqueue client message opts) w in
  let mid := messageId message in
  let write := DsUpdateStatus client mid ENQUEUED VUndefined in
  let add := QueueAdd (JobData client mid) (<["jobId" := mid]> opts) in
  (<["jobId" := mid]> opts) !! "jobId" = Some mid ∧
  ((∃ e, result (enqueue client message opts) w = Err e ∧
         trace w' = trace w ++ awaited write false ∧
         queue w' = queue w ∧ heap w' = heap w)
   ∨
   (∃ ok, result (enqueue client message opts) w = Ok tt ∧
          trace w' = trace w ++ awaited write true ++ awaited add ok ∧
          status <$> store w' !! (client, mid) = Some ENQUEUED ∧
          (ok = true →
             heap w' = heap w ++ [JobObj mid (Some (JobData client mid))] ∧
             is_Some (queue w' !! mid)))).
Proof.
  intros w' mid write add. subst w' write add.
  split; [by rewrite lookup_insert_eq|].
  one_run. unfold enqueue. fold mid.
  destruct (faults w (clock w)) as [m|] eqn:F0.
  { ran. left. eexists. repeat split; try done. traces. }
  destruct (store w !! (client, mid)) as [msg|] eqn:Hs; cycle 1.
  { ran. left. eexists. repeat split; try done. traces. }
  destruct (faults w (S (clock w))) as [m|] eqn:F1.
  - ran. right. exists false. repeat split; try done.
    + traces.
    + by rewrite lookup_insert_eq.
  - ran. right. exists true. rewrite !lookup_insert_eq. cbn [default from_option id].
    repeat split; try done.
    + traces.
    + destruct (queue w !! mid) as [q|] eqn:Q; [done|].
      by rewrite lookup_insert_eq.
Qed.

(** C9.  When the status write went through and the Queue rejects the
    submission, [enqueue] returns normally: the rejection is logged, the
    Data Store still shows ENQUEUED, and no further write is made. *)
Theorem enqueue_add_failure (client : value) (msg : message)
    (message : submission) (opts : gmap string value) (w : world) (m : string) :
  faults w (clock w) = None →
  store w !! (client, messageId message) = Some msg →
  faults w (S (clock w)) = Some m →
  let w' := after (enqueue client message opts) w in
  let mid := messageId message in
  let write := DsUpdateStatus client mid ENQUEUED VUndefined in
  let add := QueueAdd (JobData client mid) (<["jobId" := mid]> opts) in
  result (enqueue client message opts) w = Ok tt ∧
  logs w' = logs w ++ [LogEntry LError [m]] ∧
  store w' = <[(client, mid) := with_status ENQUEUED VUndefined msg]> (store w) ∧
  status <$> store w' !! (client, mid) = Some ENQUEUED ∧
  queue w' = queue w ∧
  trace w' = trace w ++ awaited write true ++ awaited add false.
Proof.
  intros F0 Hs F1 w' mid write add. subst w' write add.
  one_run. unfold enqueue. fold mid. fold mid in Hs. ran.
  repeat split; try done.
  - by rewrite lookup_insert_eq.
  - traces.
Qed.

Lemma enqueue_add_failure_witness :
  result (enqueue Scenario.acme (Submission Scenario.m1 "hello") ∅)
    (Scenario.world_of ∅ [] (Scenario.down_at 1)) = Ok tt ∧
  status <$> store (after (enqueue Scenario.acme (Submission Scenario.m1 "hello") ∅)
                      (Scenario.world_of ∅ [] (Scenario.down_at 1)))
               !! (Scenario.acme, Scenario.m1) = Some ENQUEUED.
Proof.
  destruct (enqueue_add_failure Scenario.acme
              (Message ENQUEUED VUndefined (Some "hello") None)
              (Submission Scenario.m1 "hello") ∅
              (Scenario.world_of ∅ [] (Scenario.down_at 1)) "ECONNREFUSED")
    as (R & _ & _ & Hs & _); try reflexivity.
  split; [exact R | exact Hs].
Defined.

(** ** sendMessage *)



(** Closes the goal that a rejection among the calls ended them and was
    logged, on a path where the calls made are known. *)
Ltac rejection_was_last :=
  let pre := fresh "pre" in
  let c := fresh "c" in
  let post := fresh "post" in
  let E := fresh "E" in
  intros pre c post E;
  first
    [ exfalso; apply (f_equal rejection_in) in E;
      rewrite rejection_in_middle in E; discriminate E
    | split;
      [ eapply stops_at_rejection_sound; [|exact E]; reflexivity
      | rewrite <- ?app_assoc; cbn [app]; repeat eexists ] ].

Ltac calls_made :=
  eexists; split;
    [first [rewrite <- ?app_assoc; reflexivity | symmetry; apply app_nil_r] |].

(** C6.  [sendMessage] never throws.  When the read, the send or the write
    of the send result is rejected, that call is the last one it makes, so
    no Data Store write follows, and the error is logged twice: once with
    client and messageId, once rendered by [prettyStringify]. *)
Theorem sendMessage_absorbs_errors (job : option nat) (w : world) :
  let w' := after (sendMessage job) w in
  result (sendMessage job) w = Ok tt ∧
  ∃ evs, trace w' = trace w ++ evs ∧
    ∀ pre c post, evs = pre ++ Settled c false :: post →
      post = [] ∧
      ∃ text e, logs w' = logs w ++ [LogEntry LError ["sendMessage"; text];
                                     LogEntry LError [prettyStringify e]].
Proof.
  intros w'. subst w'. one_run. unfold sendMessage.
  destruct job as [j|]; cycle 1.
  { ran. split; [done|]. calls_made. rejection_was_last. }
  destruct (heap w !! j) as [o|] eqn:Hj; cycle 1.
  { ran. split; [done|]. calls_made. rejection_was_last. }
  destruct (job_data o) as [d|] eqn:D; cycle 1.
  { ran. split; [done|]. calls_made. rejection_was_last. }
  destruct (truthy (data_messageId d)) eqn:Tm; cycle 1.
  { ran. split; [done|]. calls_made. rejection_was_last. }
  destruct (truthy (data_client d)) eqn:Tc; cycle 1.
  { ran. split; [done|]. calls_made. rejection_was_last. }
  destruct (faults w (clock w)) as [m|] eqn:F0.
  { ran. split; [done|]. calls_made. rejection_was_last. }
  destruct (store w !! (data_client d, data_messageId d)) as [msg|] eqn:Hs; cycle 1.
  { ran. split; [done|]. calls_made. rejection_was_last. }
  destruct (faults w (S (clock w))) as [m|] eqn:F1.
  { ran. split; [done|]. calls_made. rejection_was_last. }
  destruct (email msg) as [env|] eqn:He; cycle 1.
  { ran. split; [done|]. calls_made. rejection_was_last. }
  destruct (faults w (S (S (clock w)))) as [m|] eqn:F2.
  { ran. split; [done|]. calls_made. rejection_was_last. }
  ran. split; [done|]. calls_made. rejection_was_last.
Qed.

(** ** updateContent *)

(** Whatever the Job and whatever fails, [updateContent] returns normally. *)
Lemma updateContent_never_throws (job : option nat) (w : world) :
  result (updateContent job) w = Ok tt.
Proof.
  destruct job as [j|]; [|reflexivity].
  destruct (try_catch_total
    (data ← step (ReadData j);
     match data with
     | None => Ret tt
     | Some d =>
         (if truthy (data_messageId d) && truthy (data_client d)
          then await (DsDeleteMessageEmail (data_client d) (data_messageId d))
          else Ret tt);;
         await (JobUpdate j None)
     end)
    (λ e,
       id ← step (ReadId j);
       error2 "updateContent"
         ("Failed to update content for message " +:+ to_string id +:+ ". "
          +:+ message_of e)) w) as [[] H]; [|exact H].
  intros e w'. by exists tt.
Qed.

(** C7.  [updateContent] never throws, neither on a first nor on a second
    call on the same Job, and a rejected call is its last one and is only
    logged.  On a Job with a payload, when the calls go through, the first
    call clears the payload and, if the payload has a truthy client and
    messageId, deletes the stored email; a second call on that Job then
    changes nothing at all, so the email stays deleted. *)
Theorem updateContent_idempotent (job : option nat) (w : world) :
  let w1 := after (updateContent job) w in
  let w2 := after (updateContent job) w1 in
  result (updateContent job) w = Ok tt ∧
  result (updateContent job) w1 = Ok tt ∧
  (∃ evs, trace w1 = trace w ++ evs ∧
     ∀ pre c post, evs = pre ++ Settled c false :: post →
       post = [] ∧
       ∃ text, logs w1 = logs w ++ [LogEntry LError ["updateContent"; text]]) ∧
  (∀ j o d msg,
     job = Some j → heap w !! j = Some o → job_data o = Some d →
     truthy (data_messageId d) && truthy (data_client d) = true →
     store w !! (data_client d, data_messageId d) = Some msg →
     faults w (clock w) = None → faults w (S (clock w)) = None →
     email <$> store w1 !! (data_client d, data_messageId d) = Some None ∧
     heap w1 !! j = Some (JobObj (job_id o) None) ∧
     w2 = w1) ∧
  (∀ j o d,
     job = Some j → heap w !! j = Some o → job_data o = Some d →
     truthy (data_messageId d) && truthy (data_client d) = false →
     faults w (clock w) = None →
     store w1 = store w ∧
     heap w1 !! j = Some (JobObj (job_id o) None) ∧
     w2 = w1).
Proof.
  intros w1 w2. subst w1 w2.
  split; [apply updateContent_never_throws|].
  split; [apply updateContent_never_throws|].
  split; [|split].
  - one_run. unfold updateContent.
    destruct job as [j|]; cycle 1.
    { ran. calls_made. rejection_was_last. }
    destruct (heap w !! j) as [o|] eqn:Hj; cycle 1.
    { ran. calls_made. rejection_was_last. }
    destruct (job_data o) as [d|] eqn:D; cycle 1.
    { ran. calls_made. rejection_was_last. }
    destruct (faults w (clock w)) as [m|] eqn:F0;
      destruct (truthy (data_messageId d) && truthy (data_client d)) eqn:T.
    { ran. calls_made. rejection_was_last. }
    { ran. calls_made. rejection_was_last. }
    + destruct (store w !! (data_client d, data_messageId d)) as [msg|] eqn:Hs; cycle 1.
      { ran. calls_made. rejection_was_last. }
      destruct (faults w (S (clock w))) as [m|] eqn:F1.
      { ran. calls_made. rejection_was_last. }
      ran. calls_made. rejection_was_last.
    + ran. calls_made. rejection_was_last.
  - intros j o d msg -> Hj D T Hs F0 F1.
    assert (∃ w1, run (updateContent (Some j)) w = (Ok tt, w1) ∧
              email <$> store w1 !! (data_client d, data_messageId d) = Some None ∧
              heap w1 !! j = Some (JobObj (job_id o) None)) as (w1 & R1 & He & Hh).
    { unfold updateContent. steps. eexists. split; [reflexivity|]. world_simpl.
      split; [by rewrite lookup_insert_eq|].
      apply list_lookup_insert_eq. by eapply lookup_lt_Some. }
    unfold after. rewrite R1. world_simpl. repeat split; try done.
    unfold updateContent. steps. done.
  - intros j o d -> Hj D T F0.
    assert (∃ w1, run (updateContent (Some j)) w = (Ok tt, w1) ∧
              store w1 = store w ∧
              heap w1 !! j = Some (JobObj (job_id o) None)) as (w1 & R1 & Hs & Hh).
    { unfold updateContent. steps. eexists. split; [reflexivity|]. world_simpl.
      split; [done|].
      apply list_lookup_insert_eq. by eapply lookup_lt_Some. }
    unfold after. rewrite R1. world_simpl. repeat split; try done.
    unfold updateContent. steps. done.
Qed.

Lemma updateContent_idempotent_witness :
  email <$> store (after (updateContent (Some 0)) (Scenario.w_consumer Scenario.available))
              !! (Scenario.acme, Scenario.m1) = Some None ∧
  after (updateContent (Some 0))
    (after (updateContent (Some 0)) (Scenario.w_consumer Scenario.available))
  = after (updateContent (Some 0)) (Scenario.w_consumer Scenario.available).
Proof.
  destruct (updateContent_idempotent (Some 0) (Scenario.w_consumer Scenario.available))
    as (_ & _ & _ & H & _).
  destruct (H 0 (JobObj Scenario.m1 (Some Scenario.own_data)) Scenario.own_data
              (Message ENQUEUED VUndefined (Some "hello") None))
    as (He & _ & Hw); try reflexivity.
  split; [exact He | exact Hw].
Defined.

(** * Further properties of the orchestrator *)

(** ** updateStatus *)

(** X1.  On a Job whose payload has a truthy client and messageId,
    [updateStatus] makes one call: it writes the given status and
    description for that client and messageId, in that order of arguments.
    The email and the send result of the record stay, and so do the Queue,
    the Job object and the log. *)
Theorem updateStatus_writes (j : nat) (o : jobobj) (d : jobdata) (msg : message)
    (st : queueState) (description : value) (w : world) :
  heap w !! j = Some o →
  job_data o = Some d →
  truthy (data_messageId d) = true →
  truthy (data_client d) = true →
  faults w (clock w) = None →
  store w !! (data_client d, data_messageId d) = Some msg →
  let w' := after (updateStatus (Some j) st description) w in
  let write := DsUpdateStatus (data_client d) (data_messageId d) st description in
  result (updateStatus (Some j) st description) w = Ok tt ∧
  trace w' = trace w ++ awaited write true ∧
  store w' = <[(data_client d, data_messageId d) :=
                 Message st description (email msg) (sendResult msg)]> (store w) ∧
  queue w' = queue w ∧ heap w' = heap w ∧ logs w' = logs w.
Proof.
  intros Hj D Tm Tc F0 Hs w' write. subst w' write.
  one_run. unfold updateStatus. ran. repeat split; try done. traces.
Qed.

Lemma updateStatus_writes_witness :
  status <$> store (after (updateStatus (Some 0) FAILED (VStr "bounced"))
                      (Scenario.w_consumer Scenario.available))
               !! (Scenario.acme, Scenario.m1) = Some FAILED.
Proof.
  destruct (updateStatus_writes 0 (JobObj Scenario.m1 (Some Scenario.own_data))
              Scenario.own_data (Message ENQUEUED VUndefined (Some "hello") None)
              FAILED (VStr "bounced") (Scenario.w_consumer Scenario.available))
    as (_ & _ & Hs & _); [reflexivity..|].
  rewrite Hs. reflexivity.
Defined.

(** X2.  [updateStatus] has no handler: when the Data Store rejects the
    write, the caller gets that very error, nothing is logged and the store
    is as it was. *)
Theorem updateStatus_propagates (j : nat) (o : jobobj) (d : jobdata)
    (st : queueState) (description : value) (w : world) (m : string) :
  heap w !! j = Some o →
  job_data o = Some d →
  truthy (data_messageId d) = true →
  truthy (data_client d) = true →
  faults w (clock w) = Some m →
  let w' := after (updateStatus (Some j) st description) w in
  result (updateStatus (Some j) st description) w = Err (Error m) ∧
  store w' = store w ∧ logs w' = logs w.
Proof.
  intros Hj D Tm Tc F0 w'. subst w'.
  one_run. unfold updateStatus. ran. done.
Qed.

Lemma updateStatus_propagates_witness :
  result (updateStatus (Some 0) FAILED VUndefined)
    (Scenario.w_consumer (Scenario.down_at 0)) = Err (Error "ECONNREFUSED").
Proof.
  apply (updateStatus_propagates 0 (JobObj Scenario.m1 (Some Scenario.own_data))
           Scenario.own_data FAILED VUndefined
           (Scenario.w_consumer (Scenario.down_at 0)) "ECONNREFUSED");
    reflexivity.
Defined.

(** X3.  A Job that is null, has no payload, or whose payload lacks a truthy
    client or messageId is ignored by [updateStatus] and by [sendMessage]:
    both return normally without calling any collaborator, and the world is
    exactly as it was. *)
Theorem unidentified_job_is_ignored (job : option nat) (st : queueState)
    (description : value) (w : world) :
  ids_of job w = None →
  run (updateStatus job st description) w = (Ok tt, w) ∧
  run (sendMessage job) w = (Ok tt, w).
Proof.
  intros H. split.
  - unfold updateStatus. steps. done.
  - unfold sendMessage. steps. done.
Qed.

Lemma unidentified_job_is_ignored_witness :
  run (updateStatus (Some 0) FAILED VUndefined) Cases.w_scrubbed
    = (Ok tt, Cases.w_scrubbed) ∧
  run (sendMessage (Some 0)) Cases.w_scrubbed = (Ok tt, Cases.w_scrubbed).
Proof.
  apply (unidentified_job_is_ignored (Some 0) FAILED VUndefined Cases.w_scrubbed).
  reflexivity.
Defined.

(** ** sendMessage *)

(** X4.  One call of [sendMessage] hands the Mail Transport at most one
    envelope, and only the email stored for the client and messageId of the
    Job's payload. *)
Theorem sendMessage_sends_stored_email_once (job : option nat) (w : world) :
  let w' := after (sendMessage job) w in
  outbox w' = outbox w ∨
  ∃ j d msg env,
    ids_of job w = Some (j, d) ∧
    store w !! (data_client d, data_messageId d) = Some msg ∧
    email msg = Some env ∧
    outbox w' = outbox w ++ [env].
Proof.
  intros w'. subst w'. one_run. unfold sendMessage.
  destruct job as [j|]; [|ran; by left].
  destruct (heap w !! j) as [o|] eqn:Hj; [|ran; by left].
  destruct (job_data o) as [d|] eqn:D; [|ran; by left].
  destruct (truthy (data_messageId d)) eqn:Tm; [|ran; by left].
  destruct (truthy (data_client d)) eqn:Tc; [|ran; by left].
  destruct (faults w (clock w)) as [m|] eqn:F0; [ran; by left|].
  destruct (store w !! (data_client d, data_messageId d)) as [msg|] eqn:Hs;
    [|ran; by left].
  destruct (faults w (S (clock w))) as [m|] eqn:F1; [ran; by left|].
  destruct (email msg) as [env|] eqn:He; [|ran; by left].
  assert (ids_of (Some j) w = Some (j, d)) as Hid
    by (by apply (ids_of_found j o d w)).
  destruct (faults w (S (S (clock w)))) as [m|] eqn:F2.
  - ran. right. by exists j, d, msg, env.
  - ran. right. by exists j, d, msg, env.
Qed.

(** X5.  When the read of the Message is rejected, or there is no such
    Message, [sendMessage] stops there: the Mail Transport is not called and
    nothing is written. *)
Theorem sendMessage_read_failure_sends_nothing (j : nat) (o : jobobj)
    (d : jobdata) (w : world) :
  heap w !! j = Some o →
  job_data o = Some d →
  truthy (data_messageId d) = true →
  truthy (data_client d) = true →
  (is_Some (faults w (clock w)) ∨
   store w !! (data_client d, data_messageId d) = None) →
  let w' := after (sendMessage (Some j)) w in
  outbox w' = outbox w ∧ store w' = store w ∧
  trace w' = trace w ++ awaited (DsReadMessage (data_client d) (data_messageId d)) false.
Proof.
  intros Hj D Tm Tc H w'. subst w'. one_run. unfold sendMessage.
  destruct (faults w (clock w)) as [m|] eqn:F0.
  - ran. repeat split; try done. traces.
  - destruct H as [[m H]|H]; [done|]. ran. repeat split; try done. traces.
Qed.

Lemma sendMessage_read_failure_sends_nothing_witness :
  outbox (after (sendMessage (Some 0)) (Scenario.w_consumer (Scenario.down_at 0))) = [].
Proof.
  destruct (sendMessage_read_failure_sends_nothing 0
              (JobObj Scenario.m1 (Some Scenario.own_data)) Scenario.own_data
              (Scenario.w_consumer (Scenario.down_at 0)))
    as (Ho & _);
    [reflexivity | reflexivity | reflexivity | reflexivity
    | left; eexists; reflexivity | ].
  exact Ho.
Defined.

(** X6.  When the Mail Transport rejects the send, [sendMessage] writes
    nothing: the Message keeps its status and gets no send result; the error
    is logged with the client and messageId, and the caller is told
    nothing. *)
Theorem sendMessage_send_failure_writes_nothing (j : nat) (o : jobobj)
    (d : jobdata) (msg : message) (m : string) (w : world) :
  heap w !! j = Some o →
  job_data o = Some d →
  truthy (data_messageId d) = true →
  truthy (data_client d) = true →
  faults w (clock w) = None →
  store w !! (data_client d, data_messageId d) = Some msg →
  faults w (S (clock w)) = Some m →
  let w' := after (sendMessage (Some j)) w in
  result (sendMessage (Some j)) w = Ok tt ∧
  store w' = store w ∧
  outbox w' = outbox w ∧
  trace w' = trace w ++ awaited (DsReadMessage (data_client d) (data_messageId d)) true
                     ++ awaited (EmailSend (email msg)) false ∧
  logs w' = logs w ++
    [LogEntry LError ["sendMessage";
       "Error sending message from queue: client = " +:+ to_string (data_client d)
       +:+ ", messageId = " +:+ to_string (data_messageId d) +:+ ". " +:+ m];
     LogEntry LError [prettyStringify (Error m)]].
Proof.
  intros Hj D Tm Tc F0 Hs F1 w'. subst w'. one_run. unfold sendMessage.
  ran. repeat split; try done; traces.
Qed.

Lemma sendMessage_send_failure_writes_nothing_witness :
  store (after (sendMessage (Some 0)) (Scenario.w_consumer (Scenario.down_at 1)))
    = Scenario.stored.
Proof.
  destruct (sendMessage_send_failure_writes_nothing 0
              (JobObj Scenario.m1 (Some Scenario.own_data)) Scenario.own_data
              (Message ENQUEUED VUndefined (Some "hello") None) "ECONNREFUSED"
              (Scenario.w_consumer (Scenario.down_at 1)))
    as (_ & Hs & _); [reflexivity..|].
  exact Hs.
Defined.

(** ** removeJob *)

(** Goes through the cases a hypothesis lists and closes those the facts
    at hand exclude. *)
Ltac cases_away :=
  intros;
  repeat match goal with
         | H : _ ∨ _ |- _ => destruct H
         | H : _ ∧ _ |- _ => destruct H
         | H : ∃ _, _ |- _ => destruct H
         end;
  simplify_eq; try done; try congruence.

(** On a path where nothing is rejected, no case applies. *)
Ltac off_path :=
  split; [split|split; [|split; [|split]]]; cases_away.

(** X7.  [removeJob] has no handler either: it throws the plain error with
    message [m] exactly when one of its awaited Queue calls is rejected with
    [m].  That call is the lookup; or, for a Job found under [jobId] whose
    payload names [client] and [jobId], the state query; or, when that Job is
    delayed, the removal.  The rejected call is the last call made, and by
    then nothing has been written to the Data Store, started in the
    background, logged or removed. *)
Theorem removeJob_rejections_propagate (client jobId : value) (w : world)
    (m : string) :
  let w' := after (removeJob client jobId) w in
  let j := length (heap w) in
  let owned (q : qentry) :=
    ∃ d, queue w !! jobId = Some q ∧ q_payload q = Some d ∧
         truthy (data_messageId d) = true ∧ truthy (data_client d) = true ∧
         strict_ne (data_messageId d) jobId = false ∧
         strict_ne (data_client d) client = false in
  let at_getJob := faults w (clock w) = Some m in
  let at_getState :=
    faults w (clock w) = None ∧ (∃ q, owned q) ∧ faults w (S (clock w)) = Some m in
  let at_remove :=
    faults w (clock w) = None ∧ faults w (S (clock w)) = None ∧
    (∃ q, owned q ∧ q_state q = "delayed") ∧
    faults w (S (S (clock w))) = Some m in
  (result (removeJob client jobId) w = Err (Error m) ↔
     at_getJob ∨ at_getState ∨ at_remove) ∧
  (at_getJob → trace w' = trace w ++ awaited (QueueGetJob jobId) false) ∧
  (at_getState →
     trace w' = trace w ++ awaited (QueueGetJob jobId) true
                        ++ awaited (JobGetState j) false) ∧
  (at_remove →
     trace w' = trace w ++ awaited (QueueGetJob jobId) true
                        ++ awaited (JobGetState j) true
                        ++ awaited (JobRemove j) false) ∧
  (at_getJob ∨ at_getState ∨ at_remove →
     queue w' = queue w ∧ store w' = store w ∧
     pending w' = pending w ∧ logs w' = logs w).
Proof.
  intros w' j owned at_getJob at_getState at_remove.
  subst w' j owned at_getJob at_getState at_remove. cbn beta.
  one_run. unfold removeJob.
  destruct (faults w (clock w)) as [m0|] eqn:F0.
  { ran. split; [split; [intros [= ->]; by left | cases_away]|].
    split; [intros _; traces|]. do 2 (split; [cases_away|]). done. }
  destruct (queue w !! jobId) as [q|] eqn:Q; [|ran; off_path].
  destruct (q_payload q) as [d|] eqn:P; [|ran; off_path].
  destruct (truthy (data_messageId d)) eqn:Tm; [|ran; off_path].
  destruct (truthy (data_client d)) eqn:Tc; [|ran; off_path].
  destruct (strict_ne (data_messageId d) jobId) eqn:Hm; [ran; off_path|].
  destruct (strict_ne (data_client d) client) eqn:Hc; [ran; off_path|].
  destruct (faults w (S (clock w))) as [m1|] eqn:F1.
  { ran. split; [split; [intros [= ->]; right; left; by eauto 10 | cases_away]|].
    split; [cases_away|]. split; [intros _; traces|]. split; [cases_away|]. done. }
  destruct (String.eqb (q_state q) "delayed") eqn:St; cycle 1.
  { ran. apply String.eqb_neq in St. off_path. }
  apply String.eqb_eq in St.
  destruct (faults w (S (S (clock w)))) as [m2|] eqn:F2.
  { ran. split; [split; [intros [= ->]; right; right; by eauto 12 | cases_away]|].
    do 2 (split; [cases_away|]). split; [intros _; traces|]. done. }
  ran. off_path.
Qed.

Lemma removeJob_rejections_propagate_witness :
  result (removeJob Scenario.acme Scenario.m1) (Cases.w_delayed_down 2)
    = Err (Error "ECONNREFUSED") ∧
  queue (after (removeJob Scenario.acme Scenario.m1) (Cases.w_delayed_down 2))
    = queue (Cases.w_delayed_down 2) ∧
  pending (after (removeJob Scenario.acme Scenario.m1) (Cases.w_delayed_down 2)) = [].
Proof.
  destruct (removeJob_rejections_propagate Scenario.acme Scenario.m1
              (Cases.w_delayed_down 2) "ECONNREFUSED")
    as (Hthrow & _ & _ & _ & Hsame).
  assert (Hat : faults (Cases.w_delayed_down 2) (clock (Cases.w_delayed_down 2)) = None ∧
                faults (Cases.w_delayed_down 2) (S (clock (Cases.w_delayed_down 2))) = None ∧
                (∃ q, (∃ d, queue (Cases.w_delayed_down 2) !! Scenario.m1 = Some q ∧
                            q_payload q = Some d ∧
                            truthy (data_messageId d) = true ∧
                            truthy (data_client d) = true ∧
                            strict_ne (data_messageId d) Scenario.m1 = false ∧
                            strict_ne (data_client d) Scenario.acme = false) ∧
                      q_state q = "delayed") ∧
                faults (Cases.w_delayed_down 2) (S (S (clock (Cases.w_delayed_down 2))))
                  = Some "ECONNREFUSED").
  { split; [reflexivity|]. split; [reflexivity|]. split; [|reflexivity].
    exists (QEntry (Some Scenario.own_data) "delayed" ∅). split; [|reflexivity].
    exists Scenario.own_data. repeat split. }
  split; [apply Hthrow; right; right; exact Hat|].
  destruct Hsame as (Hq & _ & Hp & _); [right; right; exact Hat|].
  split; [exact Hq | exact Hp].
Defined.

(** How the event loop settles the two promises [removeJob] drops. *)

Lemma resume_rejected (c : call) (k : outcome (resp c) → prog unit) (w : world)
    (m : string) :
  faults w (clock w) = Some m →
  resume (Task c k) w =
    settled_task (run (k (Err (Error m))) (record (Settled c false) (set_clock S w))).
Proof. intros F. unfold resume, settle. rewrite F. reflexivity. Qed.

Lemma resume_dsUpdateStatus (client mid : value) (st : queueState)
    (description : value) (k : outcome unit → prog unit) (w : world) (msg : message) :
  faults w (clock w) = None →
  store w !! (client, mid) = Some msg →
  resume (Task (DsUpdateStatus client mid st description) k) w =
    settled_task
      (run (k (Ok tt))
         (record (Settled (DsUpdateStatus client mid st description) true)
            (set_store <[(client, mid) := with_status st description msg]>
               (set_clock S w)))).
Proof.
  intros F H. unfold resume, settle. rewrite F. cbn [effect]. unfold on_record.
  cbn [store set_clock]. rewrite H. reflexivity.
Qed.

Lemma resume_dsDelete (client mid : value) (k : outcome unit → prog unit)
    (w : world) (msg : message) :
  faults w (clock w) = None →
  store w !! (client, mid) = Some msg →
  resume (Task (DsDeleteMessageEmail client mid) k) w =
    settled_task
      (run (k (Ok tt))
         (record (Settled (DsDeleteMessageEmail client mid) true)
            (set_store <[(client, mid) := without_email msg]> (set_clock S w)))).
Proof.
  intros F H. unfold resume, settle. rewrite F. cbn [effect]. unfold on_record.
  cbn [store set_clock]. rewrite H. reflexivity.
Qed.

Lemma settled_task_ok (w : world) : settled_task (Ok tt, w) = w.
Proof. done. Qed.

Lemma settled_task_err (e : error) (w : world) :
  settled_task (Err e, w) = set_unhandled (λ u, u ++ [e]) w.
Proof. done. Qed.

(** X8.  After [removeJob] has returned true, and once the two promises it
    dropped have settled with the collaborators available, the Message shows
    REMOVED with no email, the Job object has no payload, the Job is out of
    the Queue, and nothing is left pending or unhandled. *)
Theorem removeJob_eventually_removed (client jobId : value) (w : world)
    (q : qentry) (d : jobdata) (msg : message) :
  pending w = [] →
  queue w !! jobId = Some q →
  q_payload q = Some d →
  truthy (data_client d) = true →
  truthy (data_messageId d) = true →
  data_messageId d = jobId →
  data_client d = client →
  q_state q = "delayed" →
  store w !! (client, jobId) = Some msg →
  (∀ i, i < 6 → faults w (clock w + i) = None) →
  let w' := drain 2 (after (removeJob client jobId) w) in
  store w' !! (client, jobId) =
    Some (Message REMOVED VUndefined None (sendResult msg)) ∧
  heap w' !! length (heap w) = Some (JobObj jobId None) ∧
  queue w' !! jobId = None ∧
  pending w' = [] ∧
  unhandled w' = unhandled w.
Proof.
  intros Hp Q P Tc Tm Hm Hc St Hs F w'. subst w'.
  pose proof (F 0 ltac:(lia)) as F0. pose proof (F 1 ltac:(lia)) as F1.
  pose proof (F 2 ltac:(lia)) as F2. pose proof (F 3 ltac:(lia)) as F3.
  pose proof (F 4 ltac:(lia)) as F4. pose proof (F 5 ltac:(lia)) as F5.
  rewrite Nat.add_0_r in F0.
  replace (clock w + 1) with (S (clock w)) in F1 by lia.
  replace (clock w + 2) with (S (S (clock w))) in F2 by lia.
  replace (clock w + 3) with (S (S (S (clock w)))) in F3 by lia.
  replace (clock w + 4) with (S (S (S (S (clock w))))) in F4 by lia.
  replace (clock w + 5) with (S (S (S (S (S (clock w)))))) in F5 by lia.
  clear F. subst client jobId.
  unfold after.
  destruct (run (removeJob (data_client d) (data_messageId d)) w) as [res fin] eqn:R.
  revert R. unfold removeJob. ran.
  cbn [drain]. world_simpl. rewrite Hp. cbn [app].
  erewrite resume_dsUpdateStatus; [|side|world_simpl; exact Hs].
  steps. rewrite settled_task_ok.
  cbn [drain]. world_simpl.
  erewrite resume_dsDelete; [|side|world_simpl; apply lookup_insert_eq].
  unfold scrub_rest. steps. rewrite settled_task_ok. world_simpl.
  repeat split; try done.
  - rewrite insert_insert_eq. by rewrite lookup_insert_eq.
  - apply list_lookup_insert_eq. rewrite length_app. cbn. lia.
  - rewrite lookup_alter_eq. by rewrite lookup_delete_eq.
Qed.

Lemma removeJob_eventually_removed_witness :
  store (drain 2 (after (removeJob Scenario.acme Scenario.m1) Scenario.w_delayed))
    !! (Scenario.acme, Scenario.m1)
  = Some (Message REMOVED VUndefined None None).
Proof.
  destruct (removeJob_eventually_removed Scenario.acme Scenario.m1 Scenario.w_delayed
              (QEntry (Some Scenario.own_data) "delayed" ∅) Scenario.own_data
              (Message ENQUEUED VUndefined (Some "hello") None))
    as (Hs & _); [reflexivity.. | intros i _; reflexivity | ].
  exact Hs.
Defined.

(** X9.  The status write REMOVED is dropped without a handler: when the
    Data Store rejects it later, [removeJob] has already returned true, the
    rejection is caught by nobody and logged by nobody, and the Message
    keeps the status it had. *)
Theorem removeJob_dropped_write_rejection_unhandled (client jobId : value)
    (w : world) (q : qentry) (d : jobdata) (m : string) :
  pending w = [] →
  queue w !! jobId = Some q →
  q_payload q = Some d →
  truthy (data_client d) = true →
  truthy (data_messageId d) = true →
  data_messageId d = jobId →
  data_client d = client →
  q_state q = "delayed" →
  faults w (clock w) = None →
  faults w (S (clock w)) = None →
  faults w (S (S (clock w))) = None →
  faults w (S (S (S (clock w)))) = Some m →
  let w1 := after (removeJob client jobId) w in
  let w2 := drain 1 w1 in
  result (removeJob client jobId) w = Ok true ∧
  unhandled w2 = unhandled w ++ [Error m] ∧
  logs w2 = logs w1 ∧
  store w2 = store w.
Proof.
  intros Hp Q P Tc Tm Hm Hc St F0 F1 F2 F3 w1 w2. subst w1 w2.
  subst client jobId. unfold result, after.
  destruct (run (removeJob (data_client d) (data_messageId d)) w) as [res fin] eqn:R.
  revert R. unfold removeJob. ran.
  cbn [drain]. world_simpl. rewrite Hp. cbn [app].
  erewrite resume_rejected; [|side].
  steps. rewrite settled_task_err. world_simpl. done.
Qed.

Lemma removeJob_dropped_write_rejection_unhandled_witness :
  result (removeJob Scenario.acme Scenario.m1) (Cases.w_delayed_down 3) = Ok true ∧
  unhandled (drain 1 (after (removeJob Scenario.acme Scenario.m1)
                        (Cases.w_delayed_down 3)))
    = [Error "ECONNREFUSED"].
Proof.
  destruct (removeJob_dropped_write_rejection_unhandled Scenario.acme Scenario.m1
              (Cases.w_delayed_down 3) (QEntry (Some Scenario.own_data) "delayed" ∅)
              Scenario.own_data "ECONNREFUSED")
    as (R & U & _); try reflexivity.
  split; [exact R | exact U].
Defined.

(** ** updateContent *)

(** X10.  When the deletion of the email is rejected, [updateContent] skips
    [job.update]: the Job keeps its payload, the failure is logged with the
    Job's id, and nothing else changes.  A later call on the same Job
    therefore tries again, and then deletes the email and clears the
    payload. *)
Theorem updateContent_delete_rejected_keeps_payload (j : nat) (o : jobobj)
    (d : jobdata) (w : world) (m : string) :
  heap w !! j = Some o →
  job_data o = Some d →
  truthy (data_messageId d) = true →
  truthy (data_client d) = true →
  faults w (clock w) = Some m →
  let w1 := after (updateContent (Some j)) w in
  let scrub := DsDeleteMessageEmail (data_client d) (data_messageId d) in
  result (updateContent (Some j)) w = Ok tt ∧
  trace w1 = trace w ++ awaited scrub false ∧
  heap w1 = heap w ∧ store w1 = store w ∧ queue w1 = queue w ∧
  logs w1 = logs w ++
    [LogEntry LError ["updateContent";
       "Failed to update content for message " +:+ to_string (job_id o)
       +:+ ". " +:+ m]] ∧
  ∀ msg,
    store w !! (data_client d, data_messageId d) = Some msg →
    faults w (S (clock w)) = None →
    faults w (S (S (clock w))) = None →
    let w2 := after (updateContent (Some j)) w1 in
    email <$> store w2 !! (data_client d, data_messageId d) = Some None ∧
    heap w2 !! j = Some (JobObj (job_id o) None).
Proof.
  intros Hj D Tm Tc F0 w1 scrub. subst w1 scrub.
  assert (∃ w1, run (updateContent (Some j)) w = (Ok tt, w1) ∧
            trace w1 = trace w ++
              awaited (DsDeleteMessageEmail (data_client d) (data_messageId d)) false ∧
            heap w1 = heap w ∧ store w1 = store w ∧ queue w1 = queue w ∧
            logs w1 = logs w ++
              [LogEntry LError ["updateContent";
                 "Failed to update content for message " +:+ to_string (job_id o)
                 +:+ ". " +:+ m]] ∧
            faults w1 = faults w ∧ clock w1 = S (clock w))
    as (w1 & R1 & Ht & Hh & Hst & Hq & Hl & Hf & Hc).
  { unfold updateContent. steps. eexists. split; [reflexivity|].
    world_simpl. repeat split; try done. traces. }
  unfold result, after. rewrite R1. cbn [fst snd].
  repeat (split; [done|]).
  intros msg Hs F1 F2.
  assert (heap w1 !! j = Some o) as Hj1 by by rewrite Hh.
  assert (store w1 !! (data_client d, data_messageId d) = Some msg) as Hs1
    by by rewrite Hst.
  assert (faults w1 (clock w1) = None) as F1' by by rewrite Hf, Hc.
  assert (faults w1 (S (clock w1)) = None) as F2' by by rewrite Hf, Hc.
  clear R1.
  destruct (run (updateContent (Some j)) w1) as [res2 fin2] eqn:R2.
  revert R2. unfold updateContent. ran. split.
  - by rewrite lookup_insert_eq.
  - apply list_lookup_insert_eq. by eapply lookup_lt_Some.
Qed.

Lemma updateContent_delete_rejected_keeps_payload_witness :
  heap (after (updateContent (Some 0)) (Scenario.w_consumer (Scenario.down_at 0)))
    = [JobObj Scenario.m1 (Some Scenario.own_data)] ∧
  email <$> store (after (updateContent (Some 0))
                     (after (updateContent (Some 0))
                        (Scenario.w_consumer (Scenario.down_at 0))))
              !! (Scenario.acme, Scenario.m1) = Some None.
Proof.
  destruct (updateContent_delete_rejected_keeps_payload 0
              (JobObj Scenario.m1 (Some Scenario.own_data)) Scenario.own_data
              (Scenario.w_consumer (Scenario.down_at 0)) "ECONNREFUSED")
    as (_ & _ & Hh & _ & _ & _ & Hretry); try reflexivity.
  split; [exact Hh|].
  destruct (Hretry (Message ENQUEUED VUndefined (Some "hello") None))
    as (He & _); [reflexivity..|].
  exact He.
Defined.

(** ** enqueue, then removeJob *)

(** X11.  The Job that [enqueue] submits passes the checks of [removeJob]:
    its payload names the messageId it is queued under, so no
    DataIntegrityError arises; another client gets ClientMismatchError; the
    client that enqueued it, while the Job is delayed, gets true and the Job
    is gone from the Queue. *)
Theorem enqueue_then_removeJob (client : value) (msg : message)
    (message : submission) (opts : gmap string value) (delay : value) (w : world) :
  truthy client = true →
  truthy (messageId message) = true →
  store w !! (client, messageId message) = Some msg →
  queue w !! messageId message = None →
  opts !! "delay" = Some delay →
  truthy delay = true →
  (∀ i, i < 5 → faults w (clock w + i) = None) →
  let mid := messageId message in
  let w1 := after (enqueue client message opts) w in
  (∀ other, other ≠ client →
     result (removeJob other mid) w1 =
       Err (ClientMismatchError
              ("Message " +:+ to_string mid +:+ " is not owned by client "
               +:+ to_string client +:+ "."))) ∧
  result (removeJob client mid) w1 = Ok true ∧
  queue (after (removeJob client mid) w1) !! mid = None.
Proof.
  intros Tc Tm Hs Q Hd Td F mid w1. subst w1. fold mid in Tm, Hs, Q.
  pose proof (F 0 ltac:(lia)) as F0. pose proof (F 1 ltac:(lia)) as F1.
  pose proof (F 2 ltac:(lia)) as F2. pose proof (F 3 ltac:(lia)) as F3.
  pose proof (F 4 ltac:(lia)) as F4.
  rewrite Nat.add_0_r in F0.
  replace (clock w + 1) with (S (clock w)) in F1 by lia.
  replace (clock w + 2) with (S (S (clock w))) in F2 by lia.
  replace (clock w + 3) with (S (S (S (clock w)))) in F3 by lia.
  replace (clock w + 4) with (S (S (S (S (clock w))))) in F4 by lia.
  clear F.
  assert (∃ w1 q d, run (enqueue client message opts) w = (Ok tt, w1) ∧
            queue w1 !! mid = Some q ∧ q_payload q = Some d ∧
            q_state q = "delayed" ∧
            data_client d = client ∧ data_messageId d = mid ∧
            faults w1 = faults w ∧ clock w1 = S (S (clock w)))
    as (w1 & q & d & R1 & Q1 & P & St & Hc & Hm & Hf & Hk).
  { unfold enqueue. fold mid. steps.
    eexists _, (QEntry (Some (JobData client mid)) "delayed" (<["jobId" := mid]> opts)),
      (JobData client mid).
    split; [reflexivity|]. world_simpl.
    rewrite lookup_insert_eq. cbn [default from_option id].
    rewrite Q, lookup_insert_eq, lookup_insert_ne by done.
    rewrite Hd. cbn [default from_option id]. rewrite Td. done. }
  unfold result, after. rewrite R1. cbn [snd]. clear R1.
  assert (faults w1 (clock w1) = None) as G0 by by rewrite Hf, Hk.
  assert (faults w1 (S (clock w1)) = None) as G1 by by rewrite Hf, Hk.
  assert (faults w1 (S (S (clock w1))) = None) as G2 by by rewrite Hf, Hk.
  assert (truthy (data_client d) = true) as Tc' by by rewrite Hc.
  assert (truthy (data_messageId d) = true) as Tm' by by rewrite Hm.
  split; [|split].
  - intros other Hne.
    assert (strict_ne (data_client d) other = true) as Hne'
      by (apply strict_ne_true; congruence).
    rewrite <- Hc. clear Hc.
    one_run. unfold removeJob. ran. done.
  - one_run. unfold removeJob. ran. done.
  - one_run. unfold removeJob. ran. apply lookup_delete_eq.
Qed.

Lemma enqueue_then_removeJob_witness :
  result (removeJob Scenario.zed Scenario.m1)
    (after (enqueue Scenario.acme (Submission Scenario.m1 "hello") Cases.delayed_opts)
       Scenario.w_idle)
  = Err (ClientMismatchError "Message m1 is not owned by client acme.") ∧
  result (removeJob Scenario.acme Scenario.m1)
    (after (enqueue Scenario.acme (Submission Scenario.m1 "hello") Cases.delayed_opts)
       Scenario.w_idle)
  = Ok true.
Proof.
  destruct (enqueue_then_removeJob Scenario.acme
              (Message ENQUEUED VUndefined (Some "hello") None)
              (Submission Scenario.m1 "hello") Cases.delayed_opts (VNum 600000)
              Scenario.w_idle)
    as (Hother & Hown & _);
    [reflexivity | reflexivity | reflexivity | reflexivity | reflexivity
    | reflexivity | intros i _; reflexivity | ].
  split; [|exact Hown]. apply Hother. discriminate.
Defined.

(** * components/email.js *)

Section EnvelopeFacts.
Context {V : Type} (undefined : V) (key_of : V → string)
  (filter : gmap string V → gmap string V).

(** An assignment under a name other than ["__proto__"] makes the
    property. *)
Lemma assign_insert (o : gmap string V) (k : string) (v : V) :
  k ≠ "__proto__" → Email.assign o k v = <[k := v]> o.
Proof. intros H. unfold Email.assign. by destruct (decide (k = "__proto__")). Qed.

(** An assignment changes no property but the one it names. *)
Lemma assign_lookup_ne (o : gmap string V) (k k' : string) (v : V) :
  k ≠ k' → Email.assign o k v !! k' = o !! k'.
Proof.
  intros H. unfold Email.assign.
  destruct (decide (k = "__proto__")); [destruct (o !! k)|];
    by rewrite ?lookup_insert_ne.
Qed.

(** X12.  The envelope has no [body] and no [bodyType] property of its own.
    When the body type names another property, other than ["__proto__"], the
    envelope holds the filtered body under that name.  Every property besides
    [body], [bodyType] and the one the body type names is as the filter left
    it.  When the body type is ["__proto__"] and the filtered message has no
    property of that name, no property is made and the body is lost: the
    envelope is the filtered message without [body] and [bodyType]. *)
Theorem createEnvelope_fields (message : gmap string V) :
  let type := key_of (Email.prop undefined message "bodyType") in
  let envelope := Email.createEnvelope undefined key_of filter message in
  envelope !! "body" = None ∧
  envelope !! "bodyType" = None ∧
  (type ≠ "body" → type ≠ "bodyType" → type ≠ "__proto__" →
     envelope !! type = Some (Email.prop undefined (filter message) "body")) ∧
  (∀ k, k ≠ "body" → k ≠ "bodyType" → k ≠ type →
     envelope !! k = filter message !! k) ∧
  (type = "__proto__" → filter message !! "__proto__" = None →
     envelope = delete "bodyType" (delete "body" (filter message)) ∧
     envelope !! type = None).
Proof.
  intros type envelope. subst envelope. unfold Email.createEnvelope. fold type.
  split; [|split; [|split; [|split]]].
  - rewrite lookup_delete_ne by done. apply lookup_delete_eq.
  - apply lookup_delete_eq.
  - intros H1 H2 H3. rewrite !lookup_delete_ne by done.
    rewrite assign_insert by done. apply lookup_insert_eq.
  - intros k H1 H2 H3. rewrite !lookup_delete_ne by done.
    by rewrite assign_lookup_ne.
  - intros E N. rewrite E. unfold Email.assign.
    destruct (decide ("__proto__" = "__proto__")) as [_|[]]; [|done].
    rewrite N. split; [done|].
    by rewrite !lookup_delete_ne.
Qed.

(** X13.  When the body type is itself ["body"] or ["bodyType"], the body is
    lost: the envelope is the filtered message without its [body] and
    [bodyType] properties, and holds the body nowhere. *)
Theorem createEnvelope_body_lost (message : gmap string V) :
  let type := key_of (Email.prop undefined message "bodyType") in
  type = "body" ∨ type = "bodyType" →
  Email.createEnvelope undefined key_of filter message =
    delete "bodyType" (delete "body" (filter message)).
Proof.
  intros type H. unfold Email.createEnvelope. fold type.
  destruct H as [-> | ->]; rewrite assign_insert by done.
  - by rewrite delete_insert_eq.
  - apply map_eq. intros k.
    destruct (decide (k = "bodyType")) as [->|Hk].
    + by rewrite !lookup_delete_eq.
    + rewrite !(lookup_delete_ne _ "bodyType") by done.
      destruct (decide (k = "body")) as [->|Hb].
      * by rewrite !lookup_delete_eq.
      * rewrite !lookup_delete_ne by done. by rewrite lookup_insert_ne.
Qed.
End EnvelopeFacts.

Lemma createEnvelope_fields_witness :
  Email.createEnvelope VUndefined to_string Cases.keep_all Cases.html_message !! "html"
    = Some (VStr "<p>hello</p>") ∧
  Email.createEnvelope VUndefined to_string Cases.keep_all Cases.html_message !! "subject"
    = Some (VStr "greetings").
Proof.
  destruct (createEnvelope_fields VUndefined to_string Cases.keep_all Cases.html_message)
    as (_ & _ & Hbody & Hrest & _).
  split.
  - apply Hbody; discriminate.
  - rewrite Hrest; [reflexivity | discriminate..].
Defined.

Lemma createEnvelope_body_lost_witness :
  Email.createEnvelope VUndefined to_string Cases.keep_all Cases.odd_message = ∅.
Proof.
  rewrite (createEnvelope_body_lost VUndefined to_string Cases.keep_all Cases.odd_message).
  - reflexivity.
  - left. reflexivity.
Defined.

Section SendingFacts.
Context {V T A I U : Type} (undefined : V) (key_of : V → string)
  (filter : gmap string V → gmap string V)
  (createTestAccount : nat → outcome A) (createTransport : A → T)
  (transport : T → nat → gmap string V → outcome I)
  (getTestMessageUrl : I → U) (messageId_of : I → string)
  (stringify_account : A → string).

Local Abbreviation sendMailEthereal :=
  (Email.sendMailEthereal undefined key_of filter createTestAccount createTransport
     transport getTestMessageUrl messageId_of stringify_account).
Local Abbreviation sendAll :=
  (Email.sendAll undefined key_of filter createTestAccount createTransport
     transport getTestMessageUrl messageId_of stringify_account).
Local Abbreviation createEnvelope := (Email.createEnvelope undefined key_of filter).

Lemma sendMailEthereal_cached (message : gmap string V) (t : T)
    (s : @Email.state V T I U) :
  Email.etherealTransporter s = Some t →
  Email.etherealTransporter (sendMailEthereal message s).2 = Some t ∧
  Email.accounts (sendMailEthereal message s).2 = Email.accounts s ∧
  Email.sends (sendMailEthereal message s).2 =
    Email.sends s ++ [(t, createEnvelope message)].
Proof.
  intros H. unfold Email.sendMailEthereal, Email.send_and_preview. rewrite H.
  unfold Email.sendMail.
  by destruct (transport t (length (Email.sends s)) (createEnvelope message)).
Qed.

(** X14.  Once [etherealTransporter] is set, every later call of
    [sendMailEthereal] reuses it: no test account is asked for, the
    transporter stays the same, and each message is handed to it once, as
    the envelope [createEnvelope] makes of it, whether the sends succeed or
    fail. *)
Theorem sendMailEthereal_reuses_transporter (messages : list (gmap string V))
    (t : T) (s : @Email.state V T I U) :
  Email.etherealTransporter s = Some t →
  Email.etherealTransporter (sendAll messages s) = Some t ∧
  Email.accounts (sendAll messages s) = Email.accounts s ∧
  Email.sends (sendAll messages s) =
    Email.sends s ++ ((λ m, (t, createEnvelope m)) <$> messages).
Proof.
  revert s. induction messages as [|m ms IH]; intros s H.
  - cbn. by rewrite app_nil_r.
  - destruct (sendMailEthereal_cached m t s H) as (H1 & H2 & H3).
    destruct (IH _ H1) as (G1 & G2 & G3).
    unfold Email.sendAll in *. cbn [foldl fmap list_fmap].
    rewrite G1, G2, G3, H2, H3. by rewrite <- app_assoc.
Qed.

(** X15.  A first call of [sendMailEthereal] asks for a test account.  When
    that fails the error is handed on, nothing is sent and the transporter
    stays unset, so the next call asks again.  When it succeeds the
    transporter made from the account is kept, even if the send through it
    fails, and the message went to that transporter. *)
Theorem sendMailEthereal_first_call (message : gmap string V)
    (s : @Email.state V T I U) :
  Email.etherealTransporter s = None →
  match createTestAccount (Email.accounts s) with
  | Err error =>
      sendMailEthereal message s =
        (Err error, Email.State None (S (Email.accounts s)) (Email.sends s) (Email.lines s))
  | Ok testAccount =>
      Email.etherealTransporter (sendMailEthereal message s).2 =
        Some (createTransport testAccount) ∧
      Email.sends (sendMailEthereal message s).2 =
        Email.sends s ++ [(createTransport testAccount, createEnvelope message)]
  end.
Proof.
  intros H. unfold Email.sendMailEthereal. rewrite H.
  destruct (createTestAccount (Email.accounts s)) as [acct|e]; [|done].
  unfold Email.send_and_preview, Email.sendMail. cbn.
  by destruct (transport (createTransport acct) (length (Email.sends s))
                 (createEnvelope message)).
Qed.
End SendingFacts.

Lemma sendMailEthereal_reuses_transporter_witness :
  Email.accounts
    (Email.sendAll VUndefined to_string Cases.keep_all Cases.no_account Cases.same
       Cases.accepts Cases.same Cases.same Cases.same
       [Cases.html_message; Cases.odd_message] Cases.cached_state) = 1 ∧
  length (Email.sends
    (Email.sendAll VUndefined to_string Cases.keep_all Cases.no_account Cases.same
       Cases.accepts Cases.same Cases.same Cases.same
       [Cases.html_message; Cases.odd_message] Cases.cached_state)) = 2.
Proof.
  destruct (sendMailEthereal_reuses_transporter VUndefined to_string Cases.keep_all
              Cases.no_account Cases.same Cases.accepts Cases.same Cases.same Cases.same
              [Cases.html_message; Cases.odd_message] "smtp.ethereal.email"
              Cases.cached_state)
    as (_ & Ha & Hs); [reflexivity|].
  split; [exact Ha|]. rewrite Hs. reflexivity.
Defined.

Lemma sendMailEthereal_first_call_witness :
  Email.sendMailEthereal VUndefined to_string Cases.keep_all Cases.no_account Cases.same
    Cases.accepts Cases.same Cases.same Cases.same Cases.html_message Cases.first_state
  = (Err (Error "offline"), Email.State None 1 [] []).
Proof.
  exact (sendMailEthereal_first_call VUndefined to_string Cases.keep_all Cases.no_account
           Cases.same Cases.accepts Cases.same Cases.same Cases.same
           Cases.html_message Cases.first_state eq_refl).
Defined.

(** * The accessors of QueueService *)

Section AccessorFacts.
Context {C D E Q : Type} (queue_of : C → Q).

Lemma assign_keeps_queue (s : @Service.t C D E Q) (a : Service.assignment) :
  Service.queue s = queue_of <$> Service.connection s →
  Service.queue (Service.assign queue_of s a) =
    queue_of <$> Service.connection (Service.assign queue_of s a).
Proof. intros H. by destruct a. Qed.

(** X16.  After the constructor and any assignments to [connection],
    [dataService] and [emailService], the [queue] getter answers the queue
    of the connection assigned last (the constructor's one if none was
    assigned); assigning the other two services does not change it. *)
Theorem queue_follows_connection (c : C) (d : D) (e : E)
    (l : list (@Service.assignment C D E)) :
  let s := foldl (Service.assign queue_of) (Service.constructor queue_of c d e) l in
  Service.queue s = queue_of <$> Service.connection s ∧
  Service.connection s = Some (default c (Service.last_connection l)).
Proof.
  intros s. subst s.
  assert (∀ (l : list (@Service.assignment C D E)) (s0 : @Service.t C D E Q) c0,
    Service.queue s0 = queue_of <$> Service.connection s0 →
    Service.connection s0 = Some c0 →
    Service.queue (foldl (Service.assign queue_of) s0 l) =
      queue_of <$> Service.connection (foldl (Service.assign queue_of) s0 l) ∧
    Service.connection (foldl (Service.assign queue_of) s0 l) =
      Some (default c0 (Service.last_connection l))) as H.
  { clear. intros l. induction l as [|a l IH]; intros s0 c0 Hq Hc; [done|].
    cbn [foldl Service.last_connection].
    destruct (IH (Service.assign queue_of s0 a)
                (match a with Service.Connection v => v | _ => c0 end))
      as [H1 H2].
    - by apply assign_keeps_queue.
    - by destruct a.
    - split; [done|]. rewrite H2. by destruct a, (Service.last_connection l). }
  by apply H.
Qed.
End AccessorFacts.
